(** * A deterministic single-tape Turing machine simulator

    Shallow embedding of [src/turing_machine.py] (class [TuringMachine]),
    of [src/transitions.py] (the five machine definitions and their
    registry), of [src/utils.py] and of the test functions of
    [tests/test_expressions.py], followed by the properties of the engine
    and of the shipped machines, stated and proved over the embedding.

    Conventions of the embedding.
    - A Python [str] is a [string] holding its UTF-8 form; its characters
      ([list(s)], [set(s)]) are the byte sequences that encode one code
      point each ([chars]).  States and tape symbols are Python strings,
      hence [string] here.
    - A Python [int] is a [Z]; [len] of a list is [py_len], [len] of a
      [str] (code points) is [str_len].
    - A Python [set] of strings is a [gset string], a [dict] is a [gmap].
    - A method of the class is a function from the object before the call
      to an [outcome]: the returned value, or the raised exception,
      together with the object as the call leaves it. *)

From Stdlib Require Import ZArith Ascii DecimalString.
From stdpp Require Import base decidable option list sorting gmap strings.

Local Open Scope Z_scope.

(** * Part I: the program *)

(** ** Python lists indexed by integers *)

Definition py_len {A} (l : list A) : Z := Z.of_nat (length l).

Module PyList.

(** Resolution of an index the way [list.__getitem__] does it: an index
    [i] with [-len <= i < 0] counts from the end, everything outside
    [-len <= i < len] is an [IndexError] (here [None]). *)
Definition index {A} (l : list A) (i : Z) : option nat :=
  if decide (0 ≤ i) then
    if decide (i < py_len l) then Some (Z.to_nat i) else None
  else
    if decide (- py_len l ≤ i) then Some (Z.to_nat (py_len l + i)) else None.

Definition getitem {A} (l : list A) (i : Z) : option A :=
  n ← index l i; l !! n.

Definition setitem {A} (l : list A) (i : Z) (x : A) : option (list A) :=
  n ← index l i; Some (<[n := x]> l).

End PyList.

(** ** Iteration order of a set

    [list(s)] enumerates a set in an order the language leaves open; the
    engine only ever takes the first element of such a list.  The order is
    a parameter of the development: any enumeration of the elements. *)
Class SetOrder := {
  set_to_list : gset string → list string;
  set_to_list_perm : ∀ X, set_to_list X ≡ₚ elements X
}.

(** One such enumeration, used where a concrete run is evaluated. *)
#[global] Instance elements_order : SetOrder :=
  {| set_to_list := elements;
     set_to_list_perm := λ X, reflexivity (elements X) |}.

(** ** The object *)

(** One entry of [history], the dict built by [_save_configuration]. *)
Record Configuration := mkConfiguration {
  h_step : Z;
  h_state : string;
  h_tape : list string;
  h_head : Z;
  h_symbol : string
}.

(** The attributes of a [TuringMachine] instance. *)
Record TuringMachine := mkTM {
  states : gset string;
  alphabet : gset string;
  tape_alphabet : gset string;
  transitions : gmap (string * string) (string * string * string);
  initial_state : string;
  accept_states : gset string;
  reject_states : gset string;
  blank_symbol : string;
  tape : list string;
  head_position : Z;
  current_state : string;
  history : list Configuration;
  step_count : Z
}.

(** Assignment to one of the five attributes the methods write. *)
Definition with_tape (t : list string) (self : TuringMachine) :=
  mkTM (states self) (alphabet self) (tape_alphabet self) (transitions self)
       (initial_state self) (accept_states self) (reject_states self)
       (blank_symbol self)
       t (head_position self) (current_state self) (history self)
       (step_count self).

Definition with_head_position (p : Z) (self : TuringMachine) :=
  mkTM (states self) (alphabet self) (tape_alphabet self) (transitions self)
       (initial_state self) (accept_states self) (reject_states self)
       (blank_symbol self)
       (tape self) p (current_state self) (history self) (step_count self).

Definition with_current_state (q : string) (self : TuringMachine) :=
  mkTM (states self) (alphabet self) (tape_alphabet self) (transitions self)
       (initial_state self) (accept_states self) (reject_states self)
       (blank_symbol self)
       (tape self) (head_position self) q (history self) (step_count self).

Definition with_history (h : list Configuration) (self : TuringMachine) :=
  mkTM (states self) (alphabet self) (tape_alphabet self) (transitions self)
       (initial_state self) (accept_states self) (reject_states self)
       (blank_symbol self)
       (tape self) (head_position self) (current_state self) h
       (step_count self).

Definition with_step_count (n : Z) (self : TuringMachine) :=
  mkTM (states self) (alphabet self) (tape_alphabet self) (transitions self)
       (initial_state self) (accept_states self) (reject_states self)
       (blank_symbol self)
       (tape self) (head_position self) (current_state self) (history self)
       n.

(** ** Exceptions and methods *)

Inductive exn :=
| ValueError (msg : string)
| IndexError (msg : string).

Inductive outcome (A : Type) :=
| Returned (a : A) (self : TuringMachine)
| Raised (e : exn) (self : TuringMachine).
Arguments Returned {A} a self.
Arguments Raised {A} e self.

(** The object as the call leaves it, whether it returned or raised. *)
Definition object_after {A} (o : outcome A) : TuringMachine :=
  match o with Returned _ self => self | Raised _ self => self end.

Definition method (A : Type) : Type := TuringMachine → outcome A.

#[global] Instance method_ret : MRet method := λ A a self, Returned a self.
#[global] Instance method_bind : MBind method := λ A B f m self,
  match m self with
  | Returned a self' => f a self'
  | Raised e self' => Raised e self'
  end.

Definition this : method TuringMachine := λ self, Returned self self.
Definition update (f : TuringMachine → TuringMachine) : method unit :=
  λ self, Returned tt (f self).
Definition raise {A} (e : exn) : method A := λ self, Raised e self.

(** [l[i]] and [self.tape[i] = x] inside a method. *)
Definition list_get (l : list string) (i : Z) : method string :=
  match PyList.getitem l i with
  | Some x => mret x
  | None => raise (IndexError "list index out of range")
  end.

Definition tape_set (i : Z) (x : string) : method unit :=
  self ← this;
  match PyList.setitem (tape self) i x with
  | Some t => update (with_tape t)
  | None => raise (IndexError "list assignment index out of range")
  end.

(** ** The class [TuringMachine] *)

(** [TuringMachine.__init__].  The sets are built from the iterables that
    are passed in; the only validation is the one on the blank symbol. *)
Definition __init__ (states_ alphabet_ tape_alphabet_ : list string)
    (transitions_ : gmap (string * string) (string * string * string))
    (initial_state_ : string) (accept_states_ reject_states_ : list string)
    (blank_symbol_ : string) : exn + TuringMachine :=
  if decide (blank_symbol_ ∉ (list_to_set tape_alphabet_ : gset string)) then
    inl (ValueError ("El símbolo blanco '" +:+ blank_symbol_ +:+
                     "' debe estar en el alfabeto de la cinta"))
  else
    inr {| states := list_to_set states_;
           alphabet := list_to_set alphabet_;
           tape_alphabet := list_to_set tape_alphabet_;
           transitions := transitions_;
           initial_state := initial_state_;
           accept_states := list_to_set accept_states_;
           reject_states := list_to_set reject_states_;
           blank_symbol := blank_symbol_;
           tape := [];
           head_position := 0;
           current_state := initial_state_;
           history := [];
           step_count := 0 |}.

(** The continuation bytes [10xxxxxx] of UTF-8, and the number of them a
    lead byte announces ([110xxxxx]: one, [1110xxxx]: two, [11110xxx]:
    three). *)
Definition is_continuation (c : ascii) : bool :=
  let n := nat_of_ascii c in
  (128 <=? n)%nat && (n <? 192)%nat.

Definition utf8_follow (c : ascii) : nat :=
  let n := nat_of_ascii c in
  if (n <? 192)%nat then 0
  else if (n <? 224)%nat then 1
  else if (n <? 240)%nat then 2
  else if (n <? 248)%nat then 3
  else 0.

(** The characters of [s] that follow the character begun in [pending],
    which still expects [k] continuation bytes. *)
Fixpoint chars_from (pending : string) (k : nat) (s : string)
    : list string :=
  match s with
  | EmptyString => [pending]
  | String c s' =>
      match k with
      | S k' =>
          if is_continuation c
          then chars_from (pending +:+ String c EmptyString) k' s'
          else pending :: chars_from (String c EmptyString) (utf8_follow c) s'
      | O => pending :: chars_from (String c EmptyString) (utf8_follow c) s'
      end
  end.

(** [list(input_string)]: the characters, each a string of length one
    (one code point, hence one to four bytes here).  A byte that neither
    begins nor continues a character stands alone; the UTF-8 form of a
    [str] has no such byte. *)
Definition chars (s : string) : list string :=
  match s with
  | EmptyString => []
  | String c s' => chars_from (String c EmptyString) (utf8_follow c) s'
  end.

(** [''.join(cells)]. *)
Definition join (cells : list string) : string :=
  foldr String.append EmptyString cells.

(** [TuringMachine._save_configuration]. *)
Definition _save_configuration : method unit :=
  self ← this;
  let tape_copy := tape self in
  symbol ← (if decide (head_position self < py_len tape_copy)
            then list_get tape_copy (head_position self)
            else mret (blank_symbol self));
  update (with_history
            (history self ++
             [ {| h_step := step_count self;
                  h_state := current_state self;
                  h_tape := tape_copy;
                  h_head := head_position self;
                  h_symbol := symbol |} ])).

(** [TuringMachine.reset]. *)
Definition reset (input_string : string) : method unit :=
  self ← this;
  update (with_tape (replicate 5 (blank_symbol self) ++ chars input_string
                     ++ replicate 5 (blank_symbol self))) ;;
  update (with_head_position 5) ;;
  update (with_current_state (initial_state self)) ;;
  update (with_history []) ;;
  update (with_step_count 0) ;;
  _save_configuration.

(** The loop [while self.head_position >= len(self.tape):
    self.tape.append(self.blank_symbol)], unrolled [fuel] times. *)
Fixpoint extend_right (fuel : nat) (blank : string) (head : Z)
    (t : list string) : list string :=
  match fuel with
  | O => t
  | S fuel' =>
      if decide (head >= py_len t)
      then extend_right fuel' blank head (t ++ [blank])
      else t
  end.

(** [TuringMachine._ensure_tape_bounds].  The loop runs at most
    [head_position + 1 - len(tape)] times, which is the fuel it is given
    ([extend_right_done] shows that it is enough). *)
Definition _ensure_tape_bounds : method unit :=
  self ← this;
  (if decide (head_position self < 0) then
     let extension := replicate 5 (blank_symbol self) in
     update (with_tape (extension ++ tape self)) ;;
     update (with_head_position (head_position self + 5))
   else mret tt) ;;
  self ← this;
  update (with_tape
            (extend_right
               (Z.to_nat (head_position self + 1 - py_len (tape self)))
               (blank_symbol self) (head_position self) (tape self))).

(** The tuple [(continuar, estado, cinta, posición, mensaje)]. *)
Record StepResult := mkResult {
  r_continue : bool;
  r_state : string;
  r_tape : list string;
  r_head : Z;
  r_message : string
}.

(** [(continuar, self.current_state, self.tape.copy(),
    self.head_position, mensaje)]. *)
Definition snapshot (continuar : bool) (mensaje : string)
    (self : TuringMachine) : StepResult :=
  mkResult continuar (current_state self) (tape self) (head_position self)
           mensaje.

Section Engine.
Context `{SetOrder}.

(** [list(self.reject_states)[0] if self.reject_states else 'qr']; the
    list of a set is empty exactly when the set is. *)
Definition reject_marker (self : TuringMachine) : string :=
  match set_to_list (reject_states self) with
  | [] => "qr"
  | q :: _ => q
  end.

(** [TuringMachine.step]. *)
Definition step : method StepResult :=
  self ← this;
  if decide (current_state self ∈ accept_states self) then
    mret (snapshot false "CADENA ACEPTADA" self)
  else if decide (current_state self ∈ reject_states self) then
    mret (snapshot false "CADENA RECHAZADA" self)
  else
    _ensure_tape_bounds ;;
    self ← this;
    current_symbol ← list_get (tape self) (head_position self);
    let transition_key := (current_state self, current_symbol) in
    match transitions self !! transition_key with
    | None =>
        update (with_current_state (reject_marker self)) ;;
        _save_configuration ;;
        self ← this;
        mret (snapshot false "RECHAZADA: No hay transición definida" self)
    | Some (new_state, write_symbol, direction) =>
        tape_set (head_position self) write_symbol ;;
        (if decide (direction = "R") then
           update (λ self, with_head_position (head_position self + 1) self)
         else if decide (direction = "L") then
           update (λ self, with_head_position (head_position self - 1) self)
         else if decide (direction ≠ "S") then
           raise (ValueError ("Dirección inválida: " +:+ direction +:+
                              ". Debe ser 'R', 'L' o 'S'"))
         else mret tt) ;;
        update (with_current_state new_state) ;;
        update (λ self, with_step_count (step_count self + 1) self) ;;
        _save_configuration ;;
        let message :=
          "Estado: " +:+ transition_key.1 +:+ " → " +:+ new_state +:+ ", "
          +:+ "Leyó: '" +:+ current_symbol +:+ "', Escribió: '"
          +:+ write_symbol +:+ "', "
          +:+ "Movimiento: " +:+ direction in
        self ← this;
        if decide (current_state self ∈ accept_states self) then
          mret (snapshot false "CADENA ACEPTADA" self)
        else if decide (current_state self ∈ reject_states self) then
          mret (snapshot false "CADENA RECHAZADA" self)
        else
          mret (snapshot true message self)
    end.

(** The [for _ in range(max_steps)] loop of [run], [n] iterations left.
    The pause between two steps ([time.sleep(delay)]) changes nothing of
    the object and is left out. *)
Fixpoint run_loop (n : nat) (step_by_step : bool)
    (results : list StepResult) : method (list StepResult) :=
  match n with
  | O => mret results
  | S n' =>
      result ← step;
      let results := results ++ [result] in
      if negb (r_continue result) then mret results
      else if step_by_step then mret results
      else run_loop n' step_by_step results
  end.

(** [TuringMachine.run]; [range(max_steps)] is empty for a negative
    [max_steps]. *)
Definition run (input_string : string) (step_by_step : bool)
    (max_steps : Z) : method (list StepResult) :=
  reset input_string ;;
  results ← run_loop (Z.to_nat max_steps) step_by_step [];
  self ← this;
  if decide (step_count self >= max_steps) then
    update (with_current_state (reject_marker self)) ;;
    self ← this;
    mret (results ++
          [snapshot false "RECHAZADA: Máximo de pasos alcanzado" self])
  else mret results.

End Engine.

(** The dict returned by [get_status]. *)
Record Status := mkStatus {
  st_state : string;
  st_tape : list string;
  st_head : Z;
  st_step : Z;
  st_is_accepting : bool;
  st_is_rejecting : bool;
  st_is_running : bool
}.

(** [TuringMachine.get_status]. *)
Definition get_status : method Status :=
  _ensure_tape_bounds ;;
  self ← this;
  mret {| st_state := current_state self;
          st_tape := tape self;
          st_head := head_position self;
          st_step := step_count self;
          st_is_accepting :=
            bool_decide (current_state self ∈ accept_states self);
          st_is_rejecting :=
            bool_decide (current_state self ∈ reject_states self);
          st_is_running :=
            bool_decide (current_state self ∉ accept_states self) &&
            bool_decide (current_state self ∉ reject_states self) |}.

(** ** [transitions.py]: the definition for [(a|b)*abb] *)

Definition REGEX_1_TRANSITIONS
    : gmap (string * string) (string * string * string) :=
  list_to_map
    [ (("q0", "a"), ("q1", "a", "R"));
      (("q0", "b"), ("q0", "b", "R"));
      (("q0", "_"), ("qr", "_", "S"));
      (("q1", "a"), ("q1", "a", "R"));
      (("q1", "b"), ("q2", "b", "R"));
      (("q1", "_"), ("qr", "_", "S"));
      (("q2", "a"), ("q1", "a", "R"));
      (("q2", "b"), ("q3", "b", "R"));
      (("q2", "_"), ("qr", "_", "S"));
      (("q3", "a"), ("q1", "a", "R"));
      (("q3", "b"), ("q0", "b", "R"));
      (("q3", "_"), ("qa", "_", "S")) ].

(** The machine built from [REGEX_1_CONFIG] the way every caller in the
    repository builds it, with the default blank symbol. *)
Definition regex_1_machine : exn + TuringMachine :=
  __init__ ["q0"; "q1"; "q2"; "q3"; "qa"; "qr"] ["a"; "b"] ["a"; "b"; "_"]
           REGEX_1_TRANSITIONS "q0" ["qa"] ["qr"] "_".

(** ** Further definitions, used as examples

    None of them is in the repository; each is a call of the constructor
    that the constructor accepts. *)

(** No reject state is declared and the table is empty. *)
Definition machine_without_reject_states : exn + TuringMachine :=
  __init__ ["q0"; "qa"] ["a"] ["a"; "_"] ∅ "q0" ["qa"] [] "_".

(** The only entry of the table has a direction that is none of
    [R], [L], [S]. *)
Definition machine_with_bad_direction : exn + TuringMachine :=
  __init__ ["q0"; "qa"; "qr"] ["a"] ["a"; "_"]
           {[ ("q0", "_") := ("q0", "_", "X") ]} "q0" ["qa"] ["qr"] "_".

(** The initial state is an accept state. *)
Definition machine_accepting_at_start : exn + TuringMachine :=
  __init__ ["q0"; "qr"] ["a"] ["a"; "_"] ∅ "q0" ["q0"] ["qr"] "_".

(** [qa] is both an accept and a reject state, and the initial state
    [zz] is not among the states. *)
Definition machine_with_overlap : exn + TuringMachine :=
  __init__ ["q0"; "qa"] ["a"] ["a"; "_"] ∅ "zz" ["qa"] ["qa"] "_".

(** A table with a cycle that never reaches an accept or reject state:
    the head stays on a blank forever. *)
Definition looping_machine : exn + TuringMachine :=
  __init__ ["q0"; "qa"; "qr"] ["a"] ["a"; "_"]
           {[ ("q0", "_") := ("q0", "_", "S") ]} "q0" ["qa"] ["qr"] "_".

(** ** [utils.py]: [validate_input_string] *)

Definition double_quote : ascii := Ascii.ascii_of_nat 34.
Definition single_quote : ascii := Ascii.ascii_of_nat 39.
Definition backslash : ascii := Ascii.ascii_of_nat 92.

Definition hex_digit (n : nat) : string :=
  String.substring n 1 "0123456789abcdef".

(** One ASCII character (a byte below 128) inside [repr] of a string
    delimited by [quote]. *)
Definition repr_char (quote c : ascii) : string :=
  let n := Ascii.nat_of_ascii c in
  if decide (c = quote ∨ c = backslash) then
    String backslash (String c EmptyString)
  else if decide (n = 9%nat) then String backslash "t"
  else if decide (n = 10%nat) then String backslash "n"
  else if decide (n = 13%nat) then String backslash "r"
  else if decide (n < 32 ∨ n = 127)%nat then
    String backslash "x" +:+ hex_digit (n / 16) +:+ hex_digit (n mod 16)
  else String c EmptyString.

Fixpoint occurs (c : ascii) (s : string) : bool :=
  match s with
  | EmptyString => false
  | String c' s' => bool_decide (c = c') || occurs c s'
  end.

(** [ord(ch)]: the code point a character encodes. *)
Definition code_point (cell : string) : N :=
  match cell with
  | String b0 EmptyString => N_of_ascii b0
  | String b0 (String b1 EmptyString) =>
      (N_of_ascii b0 mod 32) * 64 + N_of_ascii b1 mod 64
  | String b0 (String b1 (String b2 EmptyString)) =>
      ((N_of_ascii b0 mod 16) * 64 + N_of_ascii b1 mod 64) * 64
      + N_of_ascii b2 mod 64
  | String b0 (String b1 (String b2 (String b3 EmptyString))) =>
      (((N_of_ascii b0 mod 8) * 64 + N_of_ascii b1 mod 64) * 64
       + N_of_ascii b2 mod 64) * 64 + N_of_ascii b3 mod 64
  | _ => 0
  end%N.

(** Whether a character above U+007F is printable ([str.isprintable]) is
    decided by the Unicode database the interpreter ships.  The table,
    from code points to booleans, is a parameter of the development. *)
Class Unicode := isprintable : N → bool.

(** One table, used where a concrete call is evaluated: right on
    U+0080 to U+00FF (printable from U+00A1 on, the soft hyphen U+00AD
    apart); no character beyond is taken to be printable. *)
#[global] Instance latin_1_table : Unicode :=
  λ cp, ((160 <? cp) && negb (cp =? 173) && (cp <? 256))%N.

(** [n] in hexadecimal, [width] digits. *)
Fixpoint hex (width : nat) (n : N) : string :=
  match width with
  | O => EmptyString
  | S width' => hex width' (n / 16) +:+ hex_digit (N.to_nat (n mod 16))
  end.

Section Repr.
Context `{Unicode}.

(** A character above U+007F inside [repr]: kept when printable, else
    escaped by its code point. *)
Definition repr_wide (cell : string) : string :=
  let cp := code_point cell in
  if isprintable cp then cell
  else if (cp <? 256)%N then String backslash "x" +:+ hex 2 cp
  else if (cp <? 65536)%N then String backslash "u" +:+ hex 4 cp
  else String backslash "U" +:+ hex 8 cp.

Definition repr_character (quote : ascii) (cell : string) : string :=
  match cell with
  | String c EmptyString =>
      if (nat_of_ascii c <? 128)%nat then repr_char quote c
      else repr_wide cell
  | _ => repr_wide cell
  end.

(** [repr] of a [str]: single quotes unless the text has a single quote
    and no double quote. *)
Definition repr_str (s : string) : string :=
  let quote :=
    if occurs single_quote s && negb (occurs double_quote s)
    then double_quote else single_quote in
  String quote (join (repr_character quote <$> chars s))
  +:+ String quote EmptyString.

(** [", ".join(...)]. *)
Fixpoint join_comma (l : list string) : string :=
  match l with
  | [] => EmptyString
  | [x] => x
  | x :: l' => x +:+ ", " +:+ join_comma l'
  end.

(** [repr] of a list of strings, as an f-string prints it. *)
Definition repr_list (l : list string) : string :=
  "[" +:+ join_comma (repr_str <$> l) +:+ "]".

End Repr.

Section Utils.
Context `{SetOrder} `{Unicode}.

(** [sorted(s)] for a set of strings: the enumeration of the set, sorted
    by the order of [str].  [str] is ordered by code points, which for
    UTF-8 forms is the order of the bytes, [String.le]
    ([character_order]). *)
Definition sorted (X : gset string) : list string :=
  merge_sort String.le (set_to_list X).

(** [validate_input_string]. *)
Definition validate_input_string (input_string : string)
    (alphabet_ : list string) : bool * string :=
  if decide (input_string = EmptyString) then (true, EmptyString)
  else
    let invalid_symbols : gset string :=
      list_to_set (chars input_string) ∖ list_to_set alphabet_ in
    if decide (invalid_symbols ≠ ∅) then
      (false, "Símbolos inválidos: " +:+ repr_list (sorted invalid_symbols))
    else (true, EmptyString).

End Utils.

(** ** Notions used to state the properties *)

(** What a call returned, and what it raised. *)
Definition returned {A} (o : outcome A) : option A :=
  match o with Returned a _ => Some a | Raised _ _ => None end.

Definition raised {A} (o : outcome A) : option exn :=
  match o with Returned _ _ => None | Raised e _ => Some e end.

(** The object a successful construction yields; an empty object stands
    for a construction that raised. *)
Definition built (x : exn + TuringMachine) : TuringMachine :=
  match x with
  | inr self => self
  | inl _ =>
      mkTM ∅ ∅ ∅ ∅ EmptyString ∅ ∅ EmptyString [] 0 EmptyString [] 0
  end.

Definition is_built (x : exn + TuringMachine) : bool :=
  match x with inr _ => true | inl _ => false end.

(** The fields that make up the machine definition; no method assigns
    them after [__init__]. *)
Definition same_definition (a b : TuringMachine) : Prop :=
  states a = states b ∧ alphabet a = alphabet b ∧
  tape_alphabet a = tape_alphabet b ∧ transitions a = transitions b ∧
  initial_state a = initial_state b ∧ accept_states a = accept_states b ∧
  reject_states a = reject_states b ∧ blank_symbol a = blank_symbol b.

(** The object [_ensure_tape_bounds] leaves behind, in closed form
    ([_ensure_tape_bounds_returns]). *)
Definition ensured (self : TuringMachine) : TuringMachine :=
  let k := if decide (head_position self < 0) then 5%nat else 0%nat in
  let head := head_position self + Z.of_nat k in
  let m :=
    Z.to_nat (head + 1
              - py_len (replicate k (blank_symbol self) ++ tape self)) in
  with_tape (replicate k (blank_symbol self) ++ tape self
             ++ replicate m (blank_symbol self))
            (with_head_position head self).

(** The object after [_save_configuration] has appended an entry whose
    [symbol] is the given one ([_save_configuration_cases]). *)
Definition saved (symbol : string) (self : TuringMachine) : TuringMachine :=
  with_history
    (history self ++
     [ {| h_step := step_count self; h_state := current_state self;
          h_tape := tape self; h_head := head_position self;
          h_symbol := symbol |} ]) self.

(** The symbol [step] reads: the cell at the head once
    [_ensure_tape_bounds] has extended the tape ([None] when the index is
    an [IndexError]). *)
Definition symbol_under_head (self : TuringMachine) : option string :=
  let self' := object_after (_ensure_tape_bounds self) in
  PyList.getitem (tape self') (head_position self').

(** The object [reset] leaves behind, in closed form ([reset_returns]). *)
Definition after_reset (input_string : string) (self : TuringMachine)
    : TuringMachine :=
  saved (default (blank_symbol self) (head (chars input_string)))
    (with_step_count 0
       (with_history []
          (with_current_state (initial_state self)
             (with_head_position 5
                (with_tape (replicate 5 (blank_symbol self)
                            ++ chars input_string
                            ++ replicate 5 (blank_symbol self)) self))))).

(** One character in UTF-8, as the standard lays it out: a byte below
    128; or a lead byte [110xxxxx], [1110xxxx], [11110xxx] with one, two,
    three continuation bytes, in the shortest form (no lead byte [C0],
    [C1]; after [E0] a byte from [A0] on; after [F0] a byte from [90]
    on) and within U+10FFFF (lead byte at most [F4], and after [F4] a
    byte below [90]).  Every code point a [str] can hold, surrogates
    included, has exactly one such form. *)
Definition continuation (b : ascii) : Prop :=
  (128 ≤ N_of_ascii b < 192)%N.

Inductive is_character : string → Prop :=
| character_1 b0 :
    (N_of_ascii b0 < 128)%N → is_character (String b0 EmptyString)
| character_2 b0 b1 :
    (194 ≤ N_of_ascii b0 < 224)%N → continuation b1 →
    is_character (String b0 (String b1 EmptyString))
| character_3 b0 b1 b2 :
    (224 ≤ N_of_ascii b0 < 240)%N → continuation b1 → continuation b2 →
    (N_of_ascii b0 = 224 → 160 ≤ N_of_ascii b1)%N →
    is_character (String b0 (String b1 (String b2 EmptyString)))
| character_4 b0 b1 b2 b3 :
    (240 ≤ N_of_ascii b0 < 245)%N →
    continuation b1 → continuation b2 → continuation b3 →
    (N_of_ascii b0 = 240 → 144 ≤ N_of_ascii b1)%N →
    (N_of_ascii b0 = 244 → N_of_ascii b1 < 144)%N →
    is_character
      (String b0 (String b1 (String b2 (String b3 EmptyString)))).

(** A text that does not begin inside a character. *)
Definition starts_character (s : string) : Prop :=
  match s with
  | EmptyString => True
  | String c _ => is_continuation c = false
  end.

(** A symbol that [repr] shows as it is, between single quotes: a
    printable ASCII character other than the single quote and the
    backslash, or a printable character above U+007F. *)
Definition plain_symbol `{Unicode} (c : string) : Prop :=
  (∃ b, c = String b EmptyString ∧ (32 ≤ N_of_ascii b < 127)%N ∧
        b ≠ single_quote ∧ b ≠ backslash) ∨
  (is_character c ∧ (128 ≤ code_point c)%N ∧
   isprintable (code_point c) = true).

(** The tape without its two margins of five. *)
Definition strip_margins (t : list string) : list string :=
  take (length t - 5 - 5) (drop 5 t).

Section Notions.
Context `{SetOrder}.

(** The outcome of the [k]-th further call of [step] (counting from 0),
    the object being whatever the calls before it left. *)
Fixpoint call_again (k : nat) (self : TuringMachine) : outcome StepResult :=
  match k with
  | O => step self
  | S k' => call_again k' (object_after (step self))
  end.

(** Each of the next [n] calls of [step] returns and reports
    [continue = true]. *)
Fixpoint keeps_running (n : nat) (self : TuringMachine) : Prop :=
  match n with
  | O => True
  | S n' =>
      ∃ r self', step self = Returned r self' ∧ r_continue r = true ∧
                 keeps_running n' self'
  end.

(** The objects a caller can get hold of: a freshly constructed one, and
    whatever a call of a public method leaves, returning or raising. *)
Inductive reachable : TuringMachine → Prop :=
| reachable_init sts al tal tr q0 acc rej blank self :
    __init__ sts al tal tr q0 acc rej blank = inr self → reachable self
| reachable_reset s self :
    reachable self → reachable (object_after (reset s self))
| reachable_step self :
    reachable self → reachable (object_after (step self))
| reachable_run s sbs n self :
    reachable self → reachable (object_after (run s sbs n self))
| reachable_get_status self :
    reachable self → reachable (object_after (get_status self)).

End Notions.

(** ** More notions: the parts of a transition, several calls *)

Definition moved (direction : string) (p : Z) : Z :=
  if decide (direction = "R") then p + 1
  else if decide (direction = "L") then p - 1
  else p.

Definition transition_message (q sym q' w d : string) : string :=
  "Estado: " +:+ q +:+ " → " +:+ q' +:+ ", "
  +:+ "Leyó: '" +:+ sym +:+ "', Escribió: '" +:+ w +:+ "', "
  +:+ "Movimiento: " +:+ d.

Definition halt_message (self : TuringMachine) (q : string) : option string :=
  if decide (q ∈ accept_states self) then Some "CADENA ACEPTADA"
  else if decide (q ∈ reject_states self) then Some "CADENA RECHAZADA"
  else None.


Section MoreNotions.
Context `{SetOrder}.

(** The object after [k] calls of [step], whatever they returned or
    raised. *)
Fixpoint after_steps (k : nat) (self : TuringMachine) : TuringMachine :=
  match k with
  | O => self
  | S k' => after_steps k' (object_after (step self))
  end.

End MoreNotions.

(** The last entry of the history records the configuration the object
    is in. *)
Definition history_current (self : TuringMachine) : Prop :=
  ∃ e, last (history self) = Some e ∧
       h_step e = step_count self ∧ h_state e = current_state self ∧
       h_tape e = tape self ∧ h_head e = head_position self.

(** ** [transitions.py]: the other definitions and the registry *)

(** The dict of one machine ([REGEX_n_CONFIG]). *)
Record MachineConfig := mkConfig {
  c_name : string;
  c_states : list string;
  c_alphabet : list string;
  c_tape_alphabet : list string;
  c_transitions : gmap (string * string) (string * string * string);
  c_initial_state : string;
  c_accept_states : list string;
  c_reject_states : list string;
  c_description : string
}.

Definition REGEX_1_CONFIG : MachineConfig :=
  {| c_name := "(a|b)*abb";
     c_states := ["q0"; "q1"; "q2"; "q3"; "qa"; "qr"];
     c_alphabet := ["a"; "b"];
     c_tape_alphabet := ["a"; "b"; "_"];
     c_transitions := REGEX_1_TRANSITIONS;
     c_initial_state := "q0";
     c_accept_states := ["qa"];
     c_reject_states := ["qr"];
     c_description := "Cadenas sobre {a,b} que terminan en 'abb'" |}.

Definition REGEX_2_TRANSITIONS
    : gmap (string * string) (string * string * string) :=
  list_to_map
    [ (("q0", "0"), ("q0", "0", "R"));
      (("q0", "1"), ("q1", "1", "R"));
      (("q0", "_"), ("qa", "_", "S"));
      (("q1", "0"), ("qr", "0", "S"));
      (("q1", "1"), ("q1", "1", "R"));
      (("q1", "_"), ("qa", "_", "S")) ].

Definition REGEX_2_CONFIG : MachineConfig :=
  {| c_name := "0*1*";
     c_states := ["q0"; "q1"; "qa"; "qr"];
     c_alphabet := ["0"; "1"];
     c_tape_alphabet := ["0"; "1"; "_"];
     c_transitions := REGEX_2_TRANSITIONS;
     c_initial_state := "q0";
     c_accept_states := ["qa"];
     c_reject_states := ["qr"];
     c_description :=
       "Cualquier número de 0s seguido de cualquier número de 1s" |}.

Definition REGEX_3_TRANSITIONS
    : gmap (string * string) (string * string * string) :=
  list_to_map
    [ (("q0", "a"), ("q1", "a", "R"));
      (("q0", "_"), ("qa", "_", "S"));
      (("q0", "b"), ("qr", "b", "S"));
      (("q1", "a"), ("qr", "a", "S"));
      (("q1", "b"), ("q0", "b", "R"));
      (("q1", "_"), ("qr", "_", "S")) ].

Definition REGEX_3_CONFIG : MachineConfig :=
  {| c_name := "(ab)*";
     c_states := ["q0"; "q1"; "qa"; "qr"];
     c_alphabet := ["a"; "b"];
     c_tape_alphabet := ["a"; "b"; "_"];
     c_transitions := REGEX_3_TRANSITIONS;
     c_initial_state := "q0";
     c_accept_states := ["qa"];
     c_reject_states := ["qr"];
     c_description := "Cero o más repeticiones de 'ab'" |}.

Definition REGEX_4_TRANSITIONS
    : gmap (string * string) (string * string * string) :=
  list_to_map
    [ (("q0", "0"), ("qr", "0", "S"));
      (("q0", "1"), ("q1", "1", "R"));
      (("q0", "_"), ("qr", "_", "S"));
      (("q1", "0"), ("q2", "0", "R"));
      (("q1", "1"), ("qr", "1", "S"));
      (("q1", "_"), ("qr", "_", "S"));
      (("q2", "0"), ("qr", "0", "S"));
      (("q2", "1"), ("q1", "1", "R"));
      (("q2", "_"), ("qa", "_", "S")) ].

Definition REGEX_4_CONFIG : MachineConfig :=
  {| c_name := "1(01)*0";
     c_states := ["q0"; "q1"; "q2"; "qa"; "qr"];
     c_alphabet := ["0"; "1"];
     c_tape_alphabet := ["0"; "1"; "_"];
     c_transitions := REGEX_4_TRANSITIONS;
     c_initial_state := "q0";
     c_accept_states := ["qa"];
     c_reject_states := ["qr"];
     c_description :=
       "Empieza con 1, termina con 0, y tiene (01) en medio" |}.

Definition REGEX_5_TRANSITIONS
    : gmap (string * string) (string * string * string) :=
  list_to_map
    [ (("q0", "a"), ("q1", "a", "R"));
      (("q0", "b"), ("q0", "b", "R"));
      (("q0", "_"), ("qr", "_", "S"));
      (("q1", "a"), ("q1", "a", "R"));
      (("q1", "b"), ("q1", "b", "R"));
      (("q1", "_"), ("qa", "_", "S")) ].

Definition REGEX_5_CONFIG : MachineConfig :=
  {| c_name := "(a+b)*a(a+b)*";
     c_states := ["q0"; "q1"; "qa"; "qr"];
     c_alphabet := ["a"; "b"];
     c_tape_alphabet := ["a"; "b"; "_"];
     c_transitions := REGEX_5_TRANSITIONS;
     c_initial_state := "q0";
     c_accept_states := ["qa"];
     c_reject_states := ["qr"];
     c_description := "Cadenas que contienen al menos una 'a'" |}.

(** The dict [TURING_MACHINES], as its items in insertion order, and the
    lookup [dict.get]. *)
Definition TURING_MACHINES : list (string * MachineConfig) :=
  [ ("(a|b)*abb", REGEX_1_CONFIG);
    ("0*1*", REGEX_2_CONFIG);
    ("(ab)*", REGEX_3_CONFIG);
    ("1(01)*0", REGEX_4_CONFIG);
    ("(a+b)*a(a+b)*", REGEX_5_CONFIG) ].

Definition dict_get {V} (d : list (string * V)) (key : string) : option V :=
  (list_to_map d : gmap string V) !! key.

(** [get_machine_config] and [get_all_machine_names]. *)
Definition get_machine_config (regex_name : string) : option MachineConfig :=
  dict_get TURING_MACHINES regex_name.

Definition get_all_machine_names : list string := TURING_MACHINES.*1.

(** [TuringMachine(states=config['states'], ...,
    reject_states=config['reject_states'])], the call every user of a
    config makes ([utils.py], [gui.py], [ejemplo_uso.py]); the blank
    symbol is the default of the constructor. *)
Definition machine_from_config (config : MachineConfig)
    : exn + TuringMachine :=
  __init__ (c_states config) (c_alphabet config) (c_tape_alphabet config)
           (c_transitions config) (c_initial_state config)
           (c_accept_states config) (c_reject_states config) "_".

(** ** Notions for machines that scan their input once *)

(** How a scan ends: in a state the table leads to, or for want of an
    entry. *)
Inductive halting :=
| HaltsIn (q : string)
| HaltsWithoutEntry.

(** The table read as an automaton: from state [q], over the cells given,
    follow the entries until one leads to an accepting or rejecting state
    or is missing; the number is that of the entries followed before the
    last one.  [None]: the cells ran out first. *)
Fixpoint scan (tr : gmap (string * string) (string * string * string))
    (acc rej : gset string) (q : string) (cells : list string)
    : option (halting * nat) :=
  match cells with
  | [] => None
  | c :: cells' =>
      match tr !! (q, c) with
      | None => Some (HaltsWithoutEntry, O)
      | Some (q', _, _) =>
          if bool_decide (q' ∈ acc ∨ q' ∈ rej) then Some (HaltsIn q', O)
          else prod_map id S <$> scan tr acc rej q' cells'
      end
  end.

(** The shape all five shipped tables have: an entry writes back the
    symbol it reads, and either moves right into a state that is neither
    accepting nor rejecting or stays put and enters one that is. *)
Definition scanner_shaped (self : TuringMachine) : Prop :=
  map_Forall
    (λ (key : string * string) (entry : string * string * string),
       entry.1.2 = key.2 ∧
       ((entry.2 = "R" ∧ (entry.1.1 ∉ accept_states self)
                       ∧ (entry.1.1 ∉ reject_states self)) ∨
        (entry.2 = "S" ∧ (entry.1.1 ∈ accept_states self
                          ∨ entry.1.1 ∈ reject_states self))))
    (transitions self).

Section HaltsAfter.
Context `{SetOrder}.

(** The next [n] calls of [step] report [continue = true] and the one
    after them returns [r] with [continue = false], leaving [self']. *)
Definition halts_after (n : nat) (self : TuringMachine) (r : StepResult)
    (self' : TuringMachine) : Prop :=
  keeps_running n self ∧ call_again n self = Returned r self' ∧
  r_continue r = false.

End HaltsAfter.

(** The accepting and the rejecting states all five shipped
    configurations declare. *)
Definition accept_qa : gset string := list_to_set ["qa"].
Definition reject_qr : gset string := list_to_set ["qr"].






(** ** [utils.py]: the test harness *)

(** An entry of [results["details"]]. *)
Record TestDetail := mkDetail {
  d_string : string;
  d_expected : bool;
  d_got : bool;
  d_passed : bool
}.

(** The dict [test_regex_with_strings] builds. *)
Record TestResults := mkResults {
  t_total : Z;
  t_passed : Z;
  t_failed : Z;
  t_details : list TestDetail
}.

(** What [test_regex_with_strings] returns: [{"error": message}] or the
    results. *)
Inductive TestReport :=
| TestError (message : string)
| TestSummary (results : TestResults).

Section Harness.
Context `{SetOrder}.

(** The inner loop, [n] iterations left:
    [for _ in range(1000): continuar, estado, _, _, _ = tm.step();
     if not continuar: break].  [estado] is the variable the loop assigns;
    before the first iteration it is unbound, and the loop always makes
    one. *)
Fixpoint step_until_halt (n : nat) (estado : string) : method string :=
  match n with
  | O => mret estado
  | S n' =>
      result ← step;
      let estado := r_state result in
      if negb (r_continue result) then mret estado
      else step_until_halt n' estado
  end.

(** The body of the loop over [test_strings]. *)
Definition test_one (results : TestResults) (test : string * bool)
    : method TestResults :=
  let '(test_string, expected) := test in
  reset test_string ;;
  estado ← step_until_halt 1000 EmptyString;
  tm ← this;
  let accepted := bool_decide (estado ∈ accept_states tm) in
  let passed := Bool.eqb accepted expected in
  let details := t_details results ++
                 [mkDetail test_string expected accepted passed] in
  if passed then
    mret (mkResults (t_total results) (t_passed results + 1)
                    (t_failed results) details)
  else
    mret (mkResults (t_total results) (t_passed results)
                    (t_failed results + 1) details).

Fixpoint test_all (test_strings : list (string * bool))
    (results : TestResults) : method TestResults :=
  match test_strings with
  | [] => mret results
  | test :: rest =>
      results ← test_one results test;
      test_all rest results
  end.

(** [test_regex_with_strings]; [inl] is an exception that escapes.  A
    config found is a dict with nine keys, so [not config] is false for
    it. *)
Definition test_regex_with_strings (regex_name : string)
    (test_strings : list (string * bool)) : exn + TestReport :=
  match get_machine_config regex_name with
  | None =>
      inr (TestError ("Expresión regular '" +:+ regex_name
                      +:+ "' no encontrada"))
  | Some config =>
      match machine_from_config config with
      | inl e => inl e
      | inr tm =>
          match test_all test_strings
                  (mkResults (py_len test_strings) 0 0 []) tm with
          | Returned results _ => inr (TestSummary results)
          | Raised e _ => inl e
          end
      end
  end.

End Harness.

(** Every entry of the table moves the head in one of the three ways
    [step] knows. *)
Definition directions_valid (self : TuringMachine) : Prop :=
  map_Forall
    (λ (_ : string * string) (entry : string * string * string),
       entry.2 = "R" ∨ entry.2 = "L" ∨ entry.2 = "S")
    (transitions self).



(** The results once one more test case is recorded. *)
Definition recorded (results : TestResults) (test_string : string)
    (expected accepted : bool) : TestResults :=
  let passed := Bool.eqb accepted expected in
  mkResults (t_total results)
            (t_passed results + (if passed then 1 else 0))
            (t_failed results + (if passed then 0 else 1))
            (t_details results
             ++ [mkDetail test_string expected accepted passed]).

(** The verdict of the automaton on an input of a configuration: whether
    the scan of the input and one blank ends in an accepting state, and
    how many entries it follows before the last one. *)
Definition scan_config (config : MachineConfig) (s : string)
    : option (halting * nat) :=
  scan (c_transitions config) (list_to_set (c_accept_states config))
       (list_to_set (c_reject_states config)) (c_initial_state config)
       (chars s ++ ["_"]).

Definition scan_accepts (config : MachineConfig) (s : string) : bool :=
  match scan_config config s with
  | Some (HaltsIn q, _) =>
      bool_decide (q ∈ (list_to_set (c_accept_states config) : gset string))
  | _ => false
  end.

Definition scan_within (limit : nat) (config : MachineConfig) (s : string)
    : bool :=
  match scan_config config s with
  | Some (_, n) => bool_decide (n < limit)%nat
  | None => false
  end.

(** ** [utils.py]: the examples *)

Record Examples := mkExamples {
  e_accepted : list string;
  e_rejected : list string
}.

(** The dict [examples] of [get_examples_for_regex]. *)
Definition EXAMPLES : list (string * Examples) :=
  [ ("(a|b)*abb",
     mkExamples ["abb"; "aabb"; "bababb"; "abbabb"]
                ["ab"; "aba"; "ba"; "bb"]);
    ("0*1*",
     mkExamples [EmptyString; "0"; "1"; "00"; "11"; "001"; "000111"]
                ["10"; "01"; "010"; "101"]);
    ("(ab)*",
     mkExamples [EmptyString; "ab"; "abab"; "ababab"]
                ["a"; "b"; "aba"; "ba"; "abababab"]);
    ("1(01)*0",
     mkExamples ["10"; "1010"; "101010"; "10101010"]
                ["1"; "0"; "11"; "00"; "101"; "010"]);
    ("(a+b)*a(a+b)*",
     mkExamples ["a"; "ba"; "ab"; "bab"; "aabb"; "bbaa"]
                [EmptyString; "b"; "bb"; "bbb"]) ].

(** [get_examples_for_regex]. *)
Definition get_examples_for_regex (regex_name : string) : Examples :=
  default (mkExamples [] []) (dict_get EXAMPLES regex_name).

(** ** [tests/test_expressions.py] *)

Definition TEST_CASES_1 : list (string * bool) :=
  [ ("abb", true); ("aabb", true); ("bababb", true); ("abbabb", true);
    ("ab", false); ("aba", false); ("ba", false); ("bb", false);
    (EmptyString, false) ].

Definition TEST_CASES_2 : list (string * bool) :=
  [ (EmptyString, true); ("0", true); ("1", true); ("00", true);
    ("11", true); ("001", true); ("000111", true); ("10", false);
    ("01", false); ("010", false) ].

Definition TEST_CASES_3 : list (string * bool) :=
  [ (EmptyString, true); ("ab", true); ("abab", true); ("ababab", true);
    ("a", false); ("b", false); ("aba", false); ("ba", false);
    ("abababab", true) ].

Definition TEST_CASES_4 : list (string * bool) :=
  [ ("10", true); ("1010", true); ("101010", true); ("1", false);
    ("0", false); ("11", false); ("00", false); ("101", false);
    ("010", false) ].

Definition TEST_CASES_5 : list (string * bool) :=
  [ ("a", true); ("ba", true); ("ab", true); ("bab", true);
    ("aabb", true); ("bbaa", true); (EmptyString, false); ("b", false);
    ("bb", false); ("bbb", false) ].

Section Tests.
Context `{SetOrder}.

(** The common body of [test_regex_1] to [test_regex_5], printing left
    out: [results['failed'] == 0].  [None]: an exception, either one that
    escapes the harness or the [KeyError] on the error report. *)
Definition test_regex (regex_name : string)
    (test_cases : list (string * bool)) : option bool :=
  match test_regex_with_strings regex_name test_cases with
  | inr (TestSummary results) => Some (bool_decide (t_failed results = 0))
  | _ => None
  end.

Definition test_regex_1 : option bool := test_regex "(a|b)*abb" TEST_CASES_1.
Definition test_regex_2 : option bool := test_regex "0*1*" TEST_CASES_2.
Definition test_regex_3 : option bool := test_regex "(ab)*" TEST_CASES_3.
Definition test_regex_4 : option bool := test_regex "1(01)*0" TEST_CASES_4.
Definition test_regex_5 : option bool :=
  test_regex "(a+b)*a(a+b)*" TEST_CASES_5.

(** [run_all_tests]: a test function that raises counts as failed. *)
Definition run_all_tests : bool :=
  let results :=
    default false <$>
      [test_regex_1; test_regex_2; test_regex_3; test_regex_4;
       test_regex_5] in
  let passed_count := py_len (filter (λ passed, passed = true) results) in
  let total_count := py_len results in
  bool_decide (passed_count = total_count).

(** [run] in automatic mode with the default limit of 1000 steps returns
    results of which the last has [continue = false] and the state [q],
    which is also the state of the object afterwards. *)
Definition run_ends_in (q : string) (s : string) (self : TuringMachine)
    : Prop :=
  ∃ rs r self',
    run s false 1000 self = Returned (rs ++ [r]) self' ∧
    r_continue r = false ∧ r_state r = q ∧ current_state self' = q.

End Tests.

(** ** [utils.py]: [format_tape_display] *)











(** * Part II: properties *)

(** ** Lists and the helpers of the class *)

(** Unfolding of the method combinators. *)
Ltac unfold_method :=
  unfold list_get, tape_set in *;
  unfold this, update, raise in *;
  unfold mbind, method_bind, mret, method_ret in *.

Lemma index_in_range {A} (l : list A) (i : Z) :
  0 ≤ i < py_len l → PyList.index l i = Some (Z.to_nat i).
Proof.
  unfold PyList.index. intros [Hlo Hhi].
  repeat case_decide; try lia; reflexivity.
Qed.

Lemma getitem_in_range {A} (l : list A) (i : Z) :
  0 ≤ i < py_len l → PyList.getitem l i = l !! Z.to_nat i.
Proof.
  intros Hi. unfold PyList.getitem. by rewrite index_in_range.
Qed.

Lemma setitem_in_range {A} (l : list A) (i : Z) (x : A) :
  0 ≤ i < py_len l → PyList.setitem l i x = Some (<[Z.to_nat i := x]> l).
Proof.
  intros Hi. unfold PyList.setitem. by rewrite index_in_range.
Qed.

Lemma extend_right_spec fuel blank head t :
  extend_right fuel blank head t =
  t ++ replicate (fuel `min` Z.to_nat (head + 1 - py_len t))%nat blank.
Proof.
  revert t. induction fuel as [|fuel IH]; intros t; simpl.
  - by rewrite app_nil_r.
  - case_decide as Hge.
    + rewrite IH. unfold py_len in *. rewrite length_app. simpl.
      rewrite <- app_assoc. f_equal.
      replace (Z.to_nat (head + 1 - Z.of_nat (length t)))
        with (S (Z.to_nat (head + 1 - Z.of_nat (length t + 1)))) by lia.
      reflexivity.
    + unfold py_len in *.
      replace (Z.to_nat (head + 1 - Z.of_nat (length t))) with 0%nat by lia.
      by rewrite app_nil_r.
Qed.

(** With the fuel [_ensure_tape_bounds] gives it, the loop has run to its
    end: its condition is false on the tape it leaves. *)
Lemma extend_right_done blank head t :
  head < py_len (extend_right (Z.to_nat (head + 1 - py_len t)) blank head t).
Proof.
  rewrite extend_right_spec. unfold py_len.
  rewrite length_app, length_replicate. lia.
Qed.

Lemma _ensure_tape_bounds_returns self :
  _ensure_tape_bounds self = Returned tt (ensured self).
Proof.
  unfold _ensure_tape_bounds, ensured. unfold_method.
  case_decide; simpl; rewrite ?Z.add_0_r, extend_right_spec, Nat.min_id;
    unfold with_tape, with_head_position; simpl; reflexivity.
Qed.

#[global] Instance same_definition_refl : Reflexive same_definition.
Proof. intros a. repeat split. Qed.

#[global] Instance same_definition_trans : Transitive same_definition.
Proof.
  intros a b c (?&?&?&?&?&?&?&?) (?&?&?&?&?&?&?&?).
  repeat split; congruence.
Qed.

Lemma _save_configuration_cases self :
  _save_configuration self =
  match (if decide (head_position self < py_len (tape self))
         then PyList.getitem (tape self) (head_position self)
         else Some (blank_symbol self)) with
  | Some symbol => Returned tt (saved symbol self)
  | None => Raised (IndexError "list index out of range") self
  end.
Proof.
  unfold _save_configuration. unfold_method.
  case_decide; [destruct (PyList.getitem _ _)|]; reflexivity.
Qed.

Lemma _save_configuration_frame self :
  let self' := object_after (_save_configuration self) in
  same_definition self self' ∧ tape self' = tape self ∧
  head_position self' = head_position self ∧
  current_state self' = current_state self ∧
  step_count self' = step_count self.
Proof.
  rewrite _save_configuration_cases.
  destruct (if decide _ then _ else _); simpl; repeat split.
Qed.

(** *** What [_ensure_tape_bounds] does to the object *)

Lemma ensured_frame self :
  same_definition self (ensured self) ∧
  current_state (ensured self) = current_state self ∧
  history (ensured self) = history self ∧
  step_count (ensured self) = step_count self.
Proof. unfold ensured; simpl. repeat split. Qed.

Lemma ensured_shape self :
  ∃ k m : nat,
    k = (if decide (head_position self < 0) then 5%nat else 0%nat) ∧
    m = Z.to_nat (head_position self + 1 - py_len (tape self)) ∧
    tape (ensured self) =
      replicate k (blank_symbol self) ++ tape self
      ++ replicate m (blank_symbol self) ∧
    head_position (ensured self) = head_position self + Z.of_nat k.
Proof.
  unfold ensured; simpl. eexists _, _. split; [reflexivity|].
  split; [|split; [|reflexivity]]; [reflexivity|].
  unfold py_len. rewrite length_app, length_replicate.
  do 3 f_equal. lia.
Qed.

Lemma ensured_head_lt self :
  head_position (ensured self) < py_len (tape (ensured self)).
Proof.
  unfold ensured, py_len; simpl.
  rewrite !length_app, !length_replicate. case_decide; lia.
Qed.

Lemma ensured_head_nonneg self :
  -5 ≤ head_position self → 0 ≤ head_position (ensured self).
Proof. unfold ensured; simpl. case_decide; lia. Qed.

Lemma ensured_in_range self :
  0 ≤ head_position self < py_len (tape self) → ensured self = self.
Proof.
  intros [Hlo Hhi]. unfold ensured.
  rewrite decide_False by lia. simpl. rewrite Z.add_0_r.
  replace (Z.to_nat _) with 0%nat by lia. simpl. rewrite app_nil_r.
  by destruct self.
Qed.

Lemma ensured_transitions self : transitions (ensured self) = transitions self.
Proof. by destruct (ensured_frame self) as ((?&?&?&?&?&?&?&?)&?&?&?). Qed.
Lemma ensured_accept_states self :
  accept_states (ensured self) = accept_states self.
Proof. by destruct (ensured_frame self) as ((?&?&?&?&?&?&?&?)&?&?&?). Qed.
Lemma ensured_reject_states self :
  reject_states (ensured self) = reject_states self.
Proof. by destruct (ensured_frame self) as ((?&?&?&?&?&?&?&?)&?&?&?). Qed.
Lemma ensured_blank_symbol self :
  blank_symbol (ensured self) = blank_symbol self.
Proof. by destruct (ensured_frame self) as ((?&?&?&?&?&?&?&?)&?&?&?). Qed.
Lemma ensured_current_state self :
  current_state (ensured self) = current_state self.
Proof. by destruct (ensured_frame self) as (?&?&?&?). Qed.
Lemma ensured_history self : history (ensured self) = history self.
Proof. by destruct (ensured_frame self) as (?&?&?&?). Qed.
Lemma ensured_step_count self : step_count (ensured self) = step_count self.
Proof. by destruct (ensured_frame self) as (?&?&?&?). Qed.

Lemma ensured_unfold self :
  ensured self =
  let k := if decide (head_position self < 0) then 5%nat else 0%nat in
  let m := Z.to_nat (head_position self + 1 - py_len (tape self)) in
  with_tape (replicate k (blank_symbol self) ++ tape self
             ++ replicate m (blank_symbol self))
            (with_head_position (head_position self + Z.of_nat k) self).
Proof.
  unfold ensured. cbn zeta. do 3 f_equal.
  unfold py_len. rewrite length_app, length_replicate. f_equal. lia.
Qed.

Create Rewrite HintDb ensured.
#[global] Hint Rewrite ensured_transitions ensured_accept_states
  ensured_reject_states ensured_blank_symbol ensured_current_state
  ensured_history ensured_step_count : ensured.

#[global] Opaque ensured.

(** ** The engine *)

(** Case analysis along the paths of [step]. *)
Ltac step_cases :=
  unfold step; unfold_method;
  repeat (rewrite ?_ensure_tape_bounds_returns, ?_save_configuration_cases;
          cbn beta iota;
          first [ case_decide | case_match ]; simplify_eq);
  simpl.

Section EngineFacts.
Context `{SetOrder}.

Lemma reject_marker_elem self :
  reject_states self ≠ ∅ → reject_marker self ∈ reject_states self.
Proof.
  intros Hne. unfold reject_marker.
  pose proof (set_to_list_perm (reject_states self)) as Hperm.
  destruct (set_to_list (reject_states self)) as [|q l].
  - symmetry in Hperm. apply Permutation_nil_r in Hperm.
    apply elements_empty_inv in Hperm. by apply leibniz_equiv in Hperm.
  - apply elem_of_elements. rewrite <- Hperm. by left.
Qed.

Lemma reject_marker_empty self :
  reject_states self = ∅ → reject_marker self = "qr".
Proof.
  intros Hempty. unfold reject_marker.
  pose proof (set_to_list_perm (reject_states self)) as Hperm.
  rewrite Hempty, elements_empty in Hperm.
  apply Permutation_nil_r in Hperm. rewrite Hempty. by rewrite Hperm.
Qed.

Lemma reject_marker_same_definition a b :
  same_definition a b → reject_marker a = reject_marker b.
Proof. intros (?&?&?&?&?&?&Hr&?). unfold reject_marker. by rewrite Hr. Qed.

Lemma step_frame self :
  same_definition self (object_after (step self)).
Proof.
  pose proof (ensured_frame self) as (Hdef & _).
  step_cases; first [ reflexivity | exact Hdef ].
Qed.

Lemma step_head_lower_bound self :
  -1 ≤ head_position self → -1 ≤ head_position (object_after (step self)).
Proof.
  intros Hhead.
  assert (0 ≤ head_position (ensured self))
    by (apply ensured_head_nonneg; lia).
  step_cases; lia.
Qed.

(** *** The paths through [step] *)

Lemma step_accepting self :
  current_state self ∈ accept_states self →
  step self = Returned (snapshot false "CADENA ACEPTADA" self) self.
Proof. intros. unfold step. unfold_method. by rewrite decide_True. Qed.

Lemma step_rejecting self :
  current_state self ∉ accept_states self →
  current_state self ∈ reject_states self →
  step self = Returned (snapshot false "CADENA RECHAZADA" self) self.
Proof.
  intros. unfold step. unfold_method.
  rewrite decide_False by done. by rewrite decide_True.
Qed.

Lemma step_no_transition self symbol :
  current_state self ∉ accept_states self →
  current_state self ∉ reject_states self →
  symbol_under_head self = Some symbol →
  transitions self !! (current_state self, symbol) = None →
  let self' :=
    saved symbol (with_current_state (reject_marker self) (ensured self)) in
  step self =
  Returned (snapshot false "RECHAZADA: No hay transición definida" self')
           self'.
Proof.
  unfold symbol_under_head. rewrite _ensure_tape_bounds_returns. simpl.
  intros Hna Hnr Hget Hlook. unfold step. unfold_method.
  rewrite decide_False by done. rewrite decide_False by done.
  rewrite _ensure_tape_bounds_returns. cbn beta iota. rewrite Hget.
  autorewrite with ensured. rewrite Hlook.
  rewrite _save_configuration_cases. simpl.
  rewrite decide_True by apply ensured_head_lt. rewrite Hget.
  unfold reject_marker. by autorewrite with ensured.
Qed.

(** A call that reports [continue = false] leaves the object in one of
    three situations. *)
Lemma step_halt_inv self r self' :
  step self = Returned r self' → r_continue r = false →
  r = snapshot false (r_message r) self' ∧
  ( (current_state self' ∈ accept_states self ∧
     r_message r = "CADENA ACEPTADA") ∨
    ((current_state self' ∉ accept_states self) ∧
     current_state self' ∈ reject_states self ∧
     r_message r = "CADENA RECHAZADA") ∨
    (current_state self' = reject_marker self ∧
     r_message r = "RECHAZADA: No hay transición definida") ).
Proof.
  step_cases; intros Hstep Hcont; simplify_eq; simpl in *;
    autorewrite with ensured in *; try discriminate;
    split; first [ reflexivity | eauto ].
Qed.

(** *** Calling [step] again after it has halted *)

Lemma call_again_fixed self r :
  step self = Returned r self → ∀ k, call_again k self = Returned r self.
Proof. intros Hstep k. induction k as [|k IH]; simpl; by rewrite ?Hstep. Qed.

(** C1 (amended): once [step] has reported [continue = false], every
    further call returns, leaves the object exactly as it is (tape, head
    position, current state, step count and history included) and
    reports [continue = false] with the same state, tape and head
    position and the plain accept or reject message of that state; this
    is the very result of the halting call unless that one carried the
    no-transition message.  One case is excepted: the halting call
    carried the no-transition message on a machine that has no reject
    state and does not accept the state [qr]. *)
Theorem step_after_halt self r self' :
  step self = Returned r self' →
  r_continue r = false →
  r_message r ≠ "RECHAZADA: No hay transición definida" ∨
  reject_states self ≠ ∅ ∨ "qr" ∈ accept_states self →
  let r' :=
    snapshot false
      (if decide (current_state self' ∈ accept_states self')
       then "CADENA ACEPTADA" else "CADENA RECHAZADA") self' in
  (∀ k, call_again k self' = Returned r' self') ∧
  r_continue r' = false ∧ r_state r' = r_state r ∧
  r_tape r' = r_tape r ∧ r_head r' = r_head r ∧
  (r_message r ≠ "RECHAZADA: No hay transición definida" → r' = r).
Proof.
  intros Hstep Hcont Hne r'.
  destruct (step_halt_inv _ _ _ Hstep Hcont) as [Hr Hcases].
  pose proof (step_frame self) as Hdef. rewrite Hstep in Hdef. simpl in Hdef.
  destruct Hdef as (_&_&_&_&_&Hacc&Hrej&_).
  split; [|rewrite Hr; repeat split].
  - apply call_again_fixed. subst r'. case_decide as Hin.
    + by apply step_accepting.
    + apply step_rejecting; [done|]. rewrite <- Hrej, <- Hacc in *.
      destruct Hcases as [[? _]|[(_&?&_)|[Hq Hmsg]]]; [done|done|].
      rewrite Hq in Hin |- *.
      destruct Hne as [?|[Hne|Hqr]]; [done|by apply reject_marker_elem|].
      destruct (decide (reject_states self = ∅)) as [Hempty|?];
        [|by apply reject_marker_elem].
      by rewrite (reject_marker_empty self Hempty) in Hin.
  - intros Hmsg. rewrite Hr. subst r'. f_equal.
    rewrite <- Hacc. destruct Hcases as [[? ->]|[(?&?&->)|[_ ?]]];
      [by rewrite decide_True|by rewrite decide_False|done].
Qed.

(** *** An undefined transition *)

(** C3 (amended): when [step] is called in a state that is neither
    accepting nor rejecting and the table has no entry for the current
    state and the symbol under the head, the call returns
    [continue = false] with the no-transition message, having moved
    [current_state] to a member of [reject_states] when there is one and
    to the literal state [qr] when [reject_states] is empty; nothing is
    raised in either case.  The step count is unchanged and one entry is
    appended to the history. *)
Theorem step_undefined_transition self symbol :
  current_state self ∉ accept_states self →
  current_state self ∉ reject_states self →
  symbol_under_head self = Some symbol →
  transitions self !! (current_state self, symbol) = None →
  ∃ self',
    step self =
      Returned (snapshot false "RECHAZADA: No hay transición definida" self')
               self' ∧
    (reject_states self ≠ ∅ → current_state self' ∈ reject_states self) ∧
    (reject_states self = ∅ → current_state self' = "qr") ∧
    tape self' = tape (object_after (_ensure_tape_bounds self)) ∧
    head_position self' =
      head_position (object_after (_ensure_tape_bounds self)) ∧
    step_count self' = step_count self ∧
    length (history self') = S (length (history self)) ∧
    same_definition self self'.
Proof.
  intros Hna Hnr Hget Hlook. eexists. split.
  { by apply step_no_transition. }
  rewrite _ensure_tape_bounds_returns.
  simpl. autorewrite with ensured. rewrite length_app. simpl.
  split; [apply reject_marker_elem|]. split; [apply reject_marker_empty|].
  repeat split; try lia; by destruct (ensured_frame self) as ((?&?&?&?&?&?&?&?)&_).
Qed.

End EngineFacts.

(** ** Construction *)

(** C4 (amended): constructing the engine raises exactly when the blank
    symbol is not in the tape alphabet, and succeeds otherwise, whatever
    the accept and reject sets and the initial state are: neither an
    overlap of the two sets nor an initial state outside the state set is
    checked. *)
Theorem init_validates_blank_only sts al tal tr q0 acc rej blank :
  (blank ∉ tal ↔
   __init__ sts al tal tr q0 acc rej blank =
     inl (ValueError ("El símbolo blanco '" +:+ blank +:+
                      "' debe estar en el alfabeto de la cinta"))) ∧
  (blank ∈ tal ↔
   ∃ self, __init__ sts al tal tr q0 acc rej blank = inr self ∧
     initial_state self = q0 ∧ current_state self = q0 ∧
     accept_states self = list_to_set acc ∧
     reject_states self = list_to_set rej ∧
     states self = list_to_set sts ∧
     tape self = [] ∧ head_position self = 0 ∧
     history self = [] ∧ step_count self = 0).
Proof.
  unfold __init__.
  case_decide as Hin; rewrite elem_of_list_to_set in Hin.
  - split; split; try done. by intros (?&?&_).
  - split; split; try done.
    intros _. eexists. split; [reflexivity|]. simpl. repeat split.
Qed.

(** ** [reset] and [get_status] *)

Lemma reset_returns s self : reset s self = Returned tt (after_reset s self).
Proof.
  unfold reset, after_reset. unfold_method. simpl.
  rewrite _save_configuration_cases. simpl.
  assert (Hlen : 0 ≤ 5 < py_len (replicate 5 (blank_symbol self) ++ chars s
                                  ++ replicate 5 (blank_symbol self))).
  { unfold py_len. rewrite !length_app, !length_replicate. lia. }
  rewrite decide_True by apply Hlen. rewrite getitem_in_range by apply Hlen.
  destruct (chars s); reflexivity.
Qed.

Lemma get_status_returns self :
  get_status self =
  Returned {| st_state := current_state self;
              st_tape := tape (ensured self);
              st_head := head_position (ensured self);
              st_step := step_count self;
              st_is_accepting :=
                bool_decide (current_state self ∈ accept_states self);
              st_is_rejecting :=
                bool_decide (current_state self ∈ reject_states self);
              st_is_running :=
                bool_decide (current_state self ∉ accept_states self) &&
                bool_decide (current_state self ∉ reject_states self) |}
           (ensured self).
Proof.
  unfold get_status. unfold_method. rewrite _ensure_tape_bounds_returns.
  cbn beta iota. by autorewrite with ensured.
Qed.

(** *** Characters *)

Lemma string_app_assoc (x y z : string) :
  (x +:+ y) +:+ z = x +:+ (y +:+ z).
Proof.
  induction x as [|c x IH]; [done|].
  change (String c ((x +:+ y) +:+ z) = String c (x +:+ (y +:+ z))).
  by rewrite IH.
Qed.

Lemma string_app_nil_r (s : string) : s +:+ EmptyString = s.
Proof.
  induction s as [|c s IH]; [done|].
  change (String c (s +:+ EmptyString) = String c s). by rewrite IH.
Qed.

Lemma join_chars_from s : ∀ pending k,
  join (chars_from pending k s) = pending +:+ s.
Proof.
  induction s as [|c s IH]; intros pending k.
  - simpl. by rewrite string_app_nil_r.
  - cbn [chars_from]. destruct k as [|k].
    + cbn [join foldr].
      fold (join (chars_from (String c EmptyString) (utf8_follow c) s)).
      by rewrite IH.
    + destruct (is_continuation c).
      * rewrite IH. by rewrite string_app_assoc.
      * cbn [join foldr].
        fold (join (chars_from (String c EmptyString) (utf8_follow c) s)).
        by rewrite IH.
Qed.

Lemma join_chars s : join (chars s) = s.
Proof. destruct s as [|c s]; [done|]. apply join_chars_from. Qed.

Lemma chars_from_start pending k s :
  starts_character s → chars_from pending k s = pending :: chars s.
Proof.
  destruct s as [|c s]; [done|]. simpl. intros ->. by destruct k.
Qed.





Lemma continuation_is_continuation b :
  continuation b → is_continuation b = true.
Proof.
  unfold continuation, is_continuation, nat_of_ascii. intros Hb.
  apply andb_true_iff. split; [apply Nat.leb_le|apply Nat.ltb_lt]; lia.
Qed.

Lemma lead_is_not_continuation b :
  (N_of_ascii b < 128 ∨ 192 ≤ N_of_ascii b)%N → is_continuation b = false.
Proof.
  unfold is_continuation, nat_of_ascii. intros Hb. apply andb_false_iff.
  destruct Hb; [left; apply Nat.leb_gt|right; apply Nat.ltb_ge]; lia.
Qed.

Lemma utf8_follow_cases b :
  ((N_of_ascii b < 192)%N → utf8_follow b = 0%nat) ∧
  ((192 ≤ N_of_ascii b < 224)%N → utf8_follow b = 1%nat) ∧
  ((224 ≤ N_of_ascii b < 240)%N → utf8_follow b = 2%nat) ∧
  ((240 ≤ N_of_ascii b < 248)%N → utf8_follow b = 3%nat).
Proof.
  unfold utf8_follow, nat_of_ascii.
  destruct (Nat.ltb_spec (N.to_nat (N_of_ascii b)) 192);
    [split_and!; intros; first [done|lia]|].
  destruct (Nat.ltb_spec (N.to_nat (N_of_ascii b)) 224);
    [split_and!; intros; first [done|lia]|].
  destruct (Nat.ltb_spec (N.to_nat (N_of_ascii b)) 240);
    [split_and!; intros; first [done|lia]|].
  destruct (Nat.ltb_spec (N.to_nat (N_of_ascii b)) 248);
    split_and!; intros; first [done|lia].
Qed.

Lemma chars_character c s :
  is_character c → starts_character s → chars (c +:+ s) = c :: chars s.
Proof.
  intros Hc Hs.
  destruct Hc as [b0 H0|b0 b1 H0 H1|b0 b1 b2 H0 H1 H2 _
                 |b0 b1 b2 b3 H0 H1 H2 H3 _ _];
    destruct (utf8_follow_cases b0) as (F0 & F1 & F2 & F3).
  - change (chars_from (String b0 EmptyString) (utf8_follow b0) s
            = String b0 EmptyString :: chars s).
    by apply chars_from_start.
  - change (chars_from (String b0 EmptyString) (utf8_follow b0)
              (String b1 s) = String b0 (String b1 EmptyString) :: chars s).
    rewrite F1 by lia. cbn [chars_from].
    rewrite (continuation_is_continuation b1 H1).
    by apply chars_from_start.
  - change (chars_from (String b0 EmptyString) (utf8_follow b0)
              (String b1 (String b2 s))
            = String b0 (String b1 (String b2 EmptyString)) :: chars s).
    rewrite F2 by lia. cbn [chars_from].
    rewrite (continuation_is_continuation b1 H1),
      (continuation_is_continuation b2 H2).
    by apply chars_from_start.
  - change (chars_from (String b0 EmptyString) (utf8_follow b0)
              (String b1 (String b2 (String b3 s)))
            = String b0 (String b1 (String b2 (String b3 EmptyString)))
              :: chars s).
    rewrite F3 by lia. cbn [chars_from].
    rewrite (continuation_is_continuation b1 H1),
      (continuation_is_continuation b2 H2),
      (continuation_is_continuation b3 H3).
    by apply chars_from_start.
Qed.

Lemma is_character_starts c s : is_character c → starts_character (c +:+ s).
Proof.
  intros Hc. destruct Hc; simpl; apply lead_is_not_continuation; lia.
Qed.

Lemma starts_character_join cs :
  Forall is_character cs → starts_character (join cs).
Proof.
  intros [|c cs' Hc _]; [done|]. by apply is_character_starts.
Qed.

(** The characters of the text that a list of characters spells are
    those characters: [list(''.join(cs)) == cs]. *)
Lemma chars_join cs : Forall is_character cs → chars (join cs) = cs.
Proof.
  induction 1 as [|c cs Hc Hcs IH]; [done|].
  change (join (c :: cs)) with (c +:+ join cs).
  rewrite chars_character, IH; [done|done|].
  by apply starts_character_join.
Qed.

Lemma join_nil_inv cs :
  Forall is_character cs → join cs = EmptyString → cs = [].
Proof.
  intros [|c cs' Hc _]; [done|]. by destruct Hc.
Qed.


Lemma mod_in_range (x d q : N) :
  (d * q ≤ x < d * q + d)%N → (x mod d = x - d * q)%N.
Proof. intros Hx. symmetry. apply (N.mod_unique x d q); lia. Qed.

Ltac reduce_mod :=
  repeat match goal with
  | H : (128 ≤ N_of_ascii ?b < 192)%N
    |- context [ (N_of_ascii ?b mod 64)%N ] =>
      rewrite (mod_in_range (N_of_ascii b) 64 2) by lia
  | H : (194 ≤ N_of_ascii ?b < 224)%N
    |- context [ (N_of_ascii ?b mod 32)%N ] =>
      rewrite (mod_in_range (N_of_ascii b) 32 6) by lia
  | H : (224 ≤ N_of_ascii ?b < 240)%N
    |- context [ (N_of_ascii ?b mod 16)%N ] =>
      rewrite (mod_in_range (N_of_ascii b) 16 14) by lia
  | H : (240 ≤ N_of_ascii ?b < 245)%N
    |- context [ (N_of_ascii ?b mod 8)%N ] =>
      rewrite (mod_in_range (N_of_ascii b) 8 30) by lia
  end.

(** The order of [str] on characters, the order of their code points,
    is the order of their UTF-8 forms. *)
Lemma character_order a b :
  is_character a → is_character b →
  String.le a b ↔ (code_point a ≤ code_point b)%N.
Proof.
  intros Ha Hb. unfold String.le, String.leb.
  destruct Ha, Hb; cbn [String.compare code_point]; unfold Ascii.compare.
  all: unfold continuation in *; reduce_mod.
  all: repeat match goal with
       | |- context [ (?x ?= ?y)%N ] =>
           destruct (N.compare_spec x y)
       end.
  all: simpl.
  all: try (split; [intros _|intros _; exact I]).
  all: try (split; [intros []|intros Hle; exfalso]).
  all: lia.
Qed.


Lemma strip_margins_spec (l m r : list string) :
  length l = 5%nat → length r = 5%nat → strip_margins (l ++ m ++ r) = m.
Proof.
  intros Hl Hr. unfold strip_margins.
  rewrite drop_app_length' by done. rewrite !length_app, Hl, Hr.
  replace (5 + (length m + 5) - 5 - 5)%nat with (length m) by lia.
  by rewrite take_app_length.
Qed.

(** [reset] followed by [get_status], for any text, in terms of
    [chars]. *)
Lemma reset_then_get_status_chars (s : string) self :
  ∃ self' status,
    reset s self = Returned tt self' ∧
    tape self' = replicate 5 (blank_symbol self) ++ chars s
                 ++ replicate 5 (blank_symbol self) ∧
    head_position self' = 5 ∧
    current_state self' = initial_state self ∧
    step_count self' = 0 ∧
    history self' =
      [ {| h_step := 0; h_state := initial_state self;
           h_tape := tape self'; h_head := 5;
           h_symbol := default (blank_symbol self) (head (chars s)) |} ] ∧
    same_definition self self' ∧
    get_status self' = Returned status self' ∧
    st_step status = 0 ∧
    st_state status = initial_state self ∧
    st_head status = 5 ∧
    st_tape status = tape self' ∧
    strip_margins (st_tape status) = chars s ∧
    join (strip_margins (st_tape status)) = s.
Proof.
  assert (Hrange : 0 ≤ head_position (after_reset s self)
                   < py_len (tape (after_reset s self))).
  { simpl. unfold py_len. simpl. rewrite length_app. simpl. lia. }
  eexists (after_reset s self), _.
  split; [apply reset_returns|].
  do 6 (split; [by repeat split|]).
  split.
  { rewrite get_status_returns. rewrite (ensured_in_range _ Hrange).
    reflexivity. }
  do 4 (split; [reflexivity|]).
  assert (Hstrip : strip_margins (tape (after_reset s self)) = chars s).
  { simpl. by apply (strip_margins_spec (replicate 5 _) _ (replicate 5 _)). }
  split; [exact Hstrip|]. cbn [st_tape]. rewrite Hstrip. apply join_chars.
Qed.

(** C6: for every input string, given by its characters [cs] (so that
    the string is [''.join(cs)]), [reset] returns and leaves a tape of
    five blanks, the characters [cs] one to a cell, and five blanks, the
    head at index 5, the initial state as current state, a step count of
    0 and a history of exactly one entry that records this configuration
    (its symbol is the first character, or the blank for the empty
    string); [get_status()] called right after reports step 0, the
    initial state and a tape whose content between the margins is the
    input, and leaves the object as [reset] left it. *)
Theorem reset_then_get_status (cs : list string) self :
  Forall is_character cs →
  ∃ self' status,
    reset (join cs) self = Returned tt self' ∧
    tape self' = replicate 5 (blank_symbol self) ++ cs
                 ++ replicate 5 (blank_symbol self) ∧
    head_position self' = 5 ∧
    current_state self' = initial_state self ∧
    step_count self' = 0 ∧
    history self' =
      [ {| h_step := 0; h_state := initial_state self;
           h_tape := tape self'; h_head := 5;
           h_symbol := default (blank_symbol self) (head cs) |} ] ∧
    same_definition self self' ∧
    get_status self' = Returned status self' ∧
    st_step status = 0 ∧
    st_state status = initial_state self ∧
    st_head status = 5 ∧
    st_tape status = tape self' ∧
    strip_margins (st_tape status) = cs ∧
    join (strip_margins (st_tape status)) = join cs.
Proof.
  intros Hcs.
  destruct (reset_then_get_status_chars (join cs) self)
    as (self' & status & Hall).
  rewrite (chars_join cs Hcs) in Hall. by exists self', status.
Qed.

(** C2 (amended): [get_status()] always returns; the dict holds the
    current state, the tape, the head position, the step count and the
    three flags; the call never changes [current_state], [step_count],
    [history] or the definition, but it does run [_ensure_tape_bounds]
    first: the tape it leaves is the old one with blanks added in front
    and behind, the head position is shifted by the blanks added in
    front, and the object is left untouched exactly when the head is
    inside the tape. *)
Theorem get_status_effect self :
  ∃ status self' (k m : nat),
    get_status self = Returned status self' ∧
    st_state status = current_state self ∧
    st_tape status = tape self' ∧
    st_head status = head_position self' ∧
    st_step status = step_count self ∧
    st_is_accepting status =
      bool_decide (current_state self ∈ accept_states self) ∧
    st_is_rejecting status =
      bool_decide (current_state self ∈ reject_states self) ∧
    st_is_running status =
      negb (st_is_accepting status) && negb (st_is_rejecting status) ∧
    current_state self' = current_state self ∧
    step_count self' = step_count self ∧
    history self' = history self ∧
    same_definition self self' ∧
    tape self' = replicate k (blank_symbol self) ++ tape self
                 ++ replicate m (blank_symbol self) ∧
    head_position self' = head_position self + Z.of_nat k ∧
    (self' = self ↔ 0 ≤ head_position self < py_len (tape self)).
Proof.
  destruct (ensured_shape self) as (k & m & Hk & Hm & Htape & Hhead).
  destruct (ensured_frame self) as (Hdef & Hq & Hh & Hc).
  eexists _, (ensured self), k, m.
  split; [apply get_status_returns|]. cbn [st_state st_tape st_head st_step
    st_is_accepting st_is_rejecting st_is_running].
  do 6 (split; [reflexivity|]).
  split. { by rewrite !bool_decide_not. }
  do 6 (split; [done|]).
  split; [|apply ensured_in_range].
  intros Heq. rewrite Heq in Htape, Hhead.
  apply (f_equal length) in Htape.
  rewrite !length_app, !length_replicate in Htape.
  unfold py_len in *. case_decide; lia.
Qed.

(** ** Reachable objects *)

Section Reachability.
Context `{SetOrder}.

Lemma run_loop_head_lower_bound n sbs results self :
  -1 ≤ head_position self →
  -1 ≤ head_position (object_after (run_loop n sbs results self)).
Proof.
  revert results self. induction n as [|n IH]; intros results self Hhead.
  - done.
  - simpl. unfold_method.
    pose proof (step_head_lower_bound self Hhead) as Hstep.
    destruct (step self) as [r self'|e self']; simpl in *; [|done].
    destruct (r_continue r); simpl; [|done].
    destruct sbs; [done|]. by apply IH.
Qed.

Lemma run_head_lower_bound s sbs n self :
  -1 ≤ head_position (object_after (run s sbs n self)).
Proof.
  unfold run. unfold_method. rewrite reset_returns.
  assert (Hstart : -1 ≤ head_position (after_reset s self)) by (simpl; lia).
  pose proof (run_loop_head_lower_bound (Z.to_nat n) sbs [] _ Hstart) as Hl.
  destruct (run_loop _ _ _ _) as [results self'|e self']; simpl in *; [|done].
  by case_decide.
Qed.

(** The head of a reachable object is never further left than one cell
    before the tape. *)
Lemma reachable_head_lower_bound self :
  reachable self → -1 ≤ head_position self.
Proof.
  induction 1 as [????????? Hinit|s self _ IH|self _ IH|s sbs n self _ IH
                 |self _ IH].
  - unfold __init__ in Hinit. case_decide; simplify_eq. done.
  - rewrite reset_returns. simpl. lia.
  - by apply step_head_lower_bound.
  - apply run_head_lower_bound.
  - rewrite get_status_returns. simpl.
    destruct (ensured_shape self) as (k & m & _ & _ & _ & ->). lia.
Qed.

(** C7: for every reachable object, [_ensure_tape_bounds] returns and
    only adds blanks in front of the tape and behind it: every cell of
    the old tape is found unchanged, [k] places further, where [k] is the
    number of blanks added in front and also the shift of the head; and
    when the head was outside the tape, the cell at the head after the
    extension holds the blank symbol.  Nothing else of the object
    changes. *)
Theorem tape_extension_keeps_content self :
  reachable self →
  ∃ self' (k m : nat),
    _ensure_tape_bounds self = Returned tt self' ∧
    tape self' = replicate k (blank_symbol self) ++ tape self
                 ++ replicate m (blank_symbol self) ∧
    head_position self' = head_position self + Z.of_nat k ∧
    (∀ (i : nat) x,
       tape self !! i = Some x → tape self' !! (k + i)%nat = Some x) ∧
    0 ≤ head_position self' < py_len (tape self') ∧
    (¬ (0 ≤ head_position self < py_len (tape self)) →
     PyList.getitem (tape self') (head_position self')
       = Some (blank_symbol self)) ∧
    current_state self' = current_state self ∧
    step_count self' = step_count self ∧
    history self' = history self ∧
    same_definition self self'.
Proof.
  intros Hreach. apply reachable_head_lower_bound in Hreach.
  destruct (ensured_shape self) as (k & m & Hk & Hm & Htape & Hhead).
  destruct (ensured_frame self) as (Hdef & Hq & Hh & Hc).
  pose proof (ensured_head_lt self) as Hlt.
  assert (Hnonneg : 0 ≤ head_position (ensured self))
    by (apply ensured_head_nonneg; lia).
  exists (ensured self), k, m.
  split; [apply _ensure_tape_bounds_returns|].
  do 2 (split; [done|]).
  split.
  { intros i x Hi. rewrite Htape.
    rewrite lookup_app_r by (rewrite length_replicate; lia).
    rewrite length_replicate.
    replace (k + i - k)%nat with i by lia. by apply lookup_app_l_Some. }
  split; [done|].
  split; [|done].
  intros Hout. rewrite getitem_in_range by done.
  rewrite Htape, Hhead. unfold py_len in *.
  destruct (decide (head_position self < 0)) as [Hneg|Hpos].
  - subst k. rewrite lookup_app_l by (rewrite length_replicate; lia).
    apply lookup_replicate_2. lia.
  - subst k. simpl. rewrite Z.add_0_r.
    rewrite lookup_app_r by lia.
    apply lookup_replicate_2. lia.
Qed.

End Reachability.

(** ** [step] on an object that was never reset *)

Section BeforeReset.
Context `{SetOrder}.

(** Past its two tests on the current state, [step] only looks at the
    object [_ensure_tape_bounds] leaves. *)
Lemma step_depends_on_ensured a b :
  current_state a ∉ accept_states a → current_state a ∉ reject_states a →
  current_state b ∉ accept_states b → current_state b ∉ reject_states b →
  ensured a = ensured b → step a = step b.
Proof.
  intros Haa Har Hba Hbr Heq. unfold step. unfold_method.
  rewrite !decide_False by done.
  rewrite !_ensure_tape_bounds_returns. by rewrite Heq.
Qed.

(** C10 (amended): on a freshly constructed object, before any [reset],
    [step()] never raises an [IndexError].  If the initial state is
    neither accepting nor rejecting, the empty tape is first extended to
    a single blank, the blank is the symbol read from the initial state,
    and the call has exactly the outcome (result or exception, and
    object left) of the same call on the object with the one-blank tape;
    in particular it raises only if that call does, which is the
    [ValueError] of a malformed direction: if the table has no entry
    for the initial state and the blank, or one with direction [R], [L]
    or [S], the call returns; if it has one with any other direction,
    the call raises that [ValueError], having written the entry's symbol
    over the blank.  If the initial state is accepting or rejecting the
    call returns at once and the tape stays empty. *)
Theorem step_before_reset sts al tal tr q0 acc rej blank self :
  __init__ sts al tal tr q0 acc rej blank = inr self →
  (∀ msg self', step self ≠ Raised (IndexError msg) self') ∧
  (q0 ∉ accept_states self → q0 ∉ reject_states self →
   _ensure_tape_bounds self = Returned tt (with_tape [blank] self) ∧
   symbol_under_head self = Some blank ∧
   step self = step (with_tape [blank] self)) ∧
  (q0 ∈ accept_states self ∨ q0 ∈ reject_states self →
   ∃ msg, step self = Returned (snapshot false msg self) self ∧
          tape self = []) ∧
  (match tr !! (q0, blank) with
   | Some (_, _, d) => d = "R" ∨ d = "L" ∨ d = "S"
   | None => True
   end → ∃ r self', step self = Returned r self') ∧
  (q0 ∉ accept_states self → q0 ∉ reject_states self →
   ∀ q w d,
     tr !! (q0, blank) = Some (q, w, d) → d ≠ "R" → d ≠ "L" → d ≠ "S" →
     step self =
       Raised (ValueError ("Dirección inválida: " +:+ d +:+
                           ". Debe ser 'R', 'L' o 'S'"))
              (with_tape [w] self)).
Proof.
  intros Hinit. unfold __init__ in Hinit. case_decide; simplify_eq.
  set (self := mkTM _ _ _ _ _ _ _ _ _ _ _ _ _).
  assert (Hens : ensured self = with_tape [blank] self).
  { rewrite ensured_unfold. reflexivity. }
  assert (Hens1 : ensured (with_tape [blank] self) = with_tape [blank] self).
  { apply ensured_in_range. simpl. unfold py_len. simpl. lia. }
  assert (Hrun : q0 ∉ accept_states self → q0 ∉ reject_states self →
                 step self = step (with_tape [blank] self)).
  { intros. apply step_depends_on_ensured; try done;
      by rewrite Hens, Hens1. }
  split; [|split; [|split; [|split]]].
  - intros msg self'.
    destruct (decide (q0 ∈ accept_states self)) as [Ha|Ha].
    { by rewrite (step_accepting self Ha). }
    destruct (decide (q0 ∈ reject_states self)) as [Hr|Hr].
    { by rewrite (step_rejecting self Ha Hr). }
    unfold step. unfold_method. rewrite !decide_False by done.
    rewrite _ensure_tape_bounds_returns, Hens. simpl.
    destruct (tr !! (q0, blank)) as [[[q w] d]|]; simpl.
    + repeat (rewrite ?_save_configuration_cases; simpl;
              first [ case_decide | case_match ]; simplify_eq);
        discriminate.
    + rewrite ?_save_configuration_cases. simpl. discriminate.
  - intros Ha Hr. split; [|split].
    + by rewrite _ensure_tape_bounds_returns, Hens.
    + unfold symbol_under_head.
      by rewrite _ensure_tape_bounds_returns; simpl; rewrite Hens.
    + by apply Hrun.
  - intros Hterm.
    destruct (decide (q0 ∈ accept_states self)) as [Ha|Ha].
    { eexists. split; [by apply step_accepting|done]. }
    destruct Hterm as [?|Hr]; [done|].
    eexists. split; [by apply step_rejecting|done].
  - intros Hdir.
    destruct (decide (q0 ∈ accept_states self)) as [Ha|Ha].
    { eexists _, _. by apply step_accepting. }
    destruct (decide (q0 ∈ reject_states self)) as [Hr|Hr].
    { eexists _, _. by apply step_rejecting. }
    unfold step. unfold_method. rewrite !decide_False by done.
    rewrite _ensure_tape_bounds_returns, Hens. simpl.
    destruct (tr !! (q0, blank)) as [[[q w] d]|]; simpl.
    + destruct Hdir as [-> | [-> | ->]];
        repeat (rewrite ?_save_configuration_cases; simpl;
                first [ case_decide | case_match ]; simplify_eq);
        eauto.
    + rewrite ?_save_configuration_cases. simpl. eauto.
  - intros Ha Hr q w d Hlook HR HL HS.
    unfold step. unfold_method. rewrite !decide_False by done.
    rewrite _ensure_tape_bounds_returns, Hens. simpl.
    rewrite Hlook. simpl.
    rewrite !decide_False by done. by rewrite decide_True by done.
Qed.

End BeforeReset.

(** ** The step limit of [run], in general *)

Section StepLimit.
Context `{SetOrder}.

Lemma step_continue_counts self r self' :
  step self = Returned r self' → r_continue r = true →
  step_count self' = step_count self + 1.
Proof.
  step_cases; intros Hstep Hcont; simplify_eq; simpl in *;
    autorewrite with ensured in *; try discriminate; reflexivity.
Qed.

Lemma run_unfold s sbs n self :
  run s sbs n self =
  match run_loop (Z.to_nat n) sbs [] (after_reset s self) with
  | Returned results self1 =>
      if decide (step_count self1 >= n) then
        let self2 := with_current_state (reject_marker self1) self1 in
        Returned
          (results ++
           [snapshot false "RECHAZADA: Máximo de pasos alcanzado" self2])
          self2
      else Returned results self1
  | Raised e self1 => Raised e self1
  end.
Proof.
  unfold run. unfold_method. rewrite reset_returns.
  destruct (run_loop _ _ _ _); [|done]. by case_decide.
Qed.

Lemma run_loop_keeps_running n results self :
  keeps_running n self →
  ∃ rs self',
    run_loop n false results self = Returned (results ++ rs) self' ∧
    length rs = n ∧
    Forall (λ r, r_continue r = true) rs ∧
    step_count self' = step_count self + Z.of_nat n ∧
    same_definition self self'.
Proof.
  revert results self. induction n as [|n IH]; intros results self Hrun.
  - exists [], self. rewrite app_nil_r. split_and!; try done. lia.
  - destruct Hrun as (r & self1 & Hstep & Hcont & Hrun).
    destruct (IH (results ++ [r]) self1 Hrun)
      as (rs & self' & Hloop & Hlen & Hall & Hcount & Hdef).
    exists (r :: rs), self'. simpl. unfold_method.
    rewrite Hstep, Hcont. simpl. rewrite Hloop.
    rewrite <- app_assoc. split_and!; try done.
    + by rewrite Hlen.
    + by constructor.
    + rewrite Hcount, (step_continue_counts _ _ _ Hstep Hcont). lia.
    + pose proof (step_frame self) as Hf. rewrite Hstep in Hf.
      by etrans.
Qed.

(** The step limit, as far as it is reached with the machine running: if
    each of the first [max_steps] calls of [step] after [reset] reports
    [continue = true], [run] returns their results followed by the
    step-limit result, with the current state overridden and a step count
    of [max_steps]. *)
Lemma run_step_limit_while_running s (max_steps : Z) self :
  0 ≤ max_steps →
  keeps_running (Z.to_nat max_steps) (after_reset s self) →
  ∃ results self',
    run s false max_steps self =
      Returned
        (results ++
         [snapshot false "RECHAZADA: Máximo de pasos alcanzado" self'])
        self' ∧
    py_len results = max_steps ∧
    Forall (λ r, r_continue r = true) results ∧
    current_state self' = reject_marker self ∧
    (reject_states self ≠ ∅ → current_state self' ∈ reject_states self') ∧
    step_count self' = max_steps.
Proof.
  intros Hpos Hrun.
  destruct (run_loop_keeps_running _ [] _ Hrun)
    as (rs & self1 & Hloop & Hlen & Hall & Hcount & Hdef).
  simpl in Hloop, Hcount.
  assert (Hdef' : same_definition self self1).
  { etrans; [|exact Hdef]. repeat split. }
  exists rs, (with_current_state (reject_marker self1) self1).
  rewrite run_unfold, Hloop. rewrite decide_True by lia.
  split; [done|]. unfold py_len. simpl.
  rewrite <- (reject_marker_same_definition _ _ Hdef').
  split_and!; try done; try lia.
  intros Hne. destruct Hdef' as (_&_&_&_&_&_&<-&_).
  by apply reject_marker_elem.
Qed.

End StepLimit.

(** ** [validate_input_string] *)

Section UtilsFacts.
Context `{SetOrder} `{Unicode}.

Lemma sorted_spec (X : gset string) :
  StronglySorted String.le (sorted X) ∧ NoDup (sorted X) ∧
  ∀ c, c ∈ sorted X ↔ c ∈ X.
Proof.
  unfold sorted.
  assert (Hperm : merge_sort String.le (set_to_list X) ≡ₚ elements X).
  { rewrite merge_sort_Permutation. apply set_to_list_perm. }
  split; [apply (StronglySorted_merge_sort _)|].
  split.
  - rewrite Hperm. apply NoDup_elements.
  - intros c. rewrite Hperm. apply elem_of_elements.
Qed.

(** The sorted list does not depend on the order in which the set is
    enumerated. *)
Lemma sorted_unique (X : gset string) (l : list string) :
  StronglySorted String.le l → l ≡ₚ elements X → l = sorted X.
Proof.
  intros Hl Hperm. destruct (sorted_spec X) as (Hs & _ & _).
  apply (StronglySorted_unique String.le); [done|done|].
  rewrite Hperm. unfold sorted. rewrite merge_sort_Permutation.
  symmetry. apply set_to_list_perm.
Qed.

(** [validate_input_string] for any text, in terms of [chars] and
    [repr_list]. *)
Lemma validate_input_string_chars (input_string : string)
    (alphabet_ : list string) :
  (validate_input_string input_string alphabet_ = (true, EmptyString) ↔
   input_string = EmptyString ∨
   ∀ c, c ∈ chars input_string → c ∈ alphabet_) ∧
  (validate_input_string input_string alphabet_ = (true, EmptyString) ∨
   ∃ invalid : list string,
     validate_input_string input_string alphabet_ =
       (false, "Símbolos inválidos: " +:+ repr_list invalid) ∧
     invalid ≠ [] ∧
     StronglySorted String.le invalid ∧ NoDup invalid ∧
     ∀ c, c ∈ invalid ↔ c ∈ chars input_string ∧ c ∉ alphabet_).
Proof.
  unfold validate_input_string.
  destruct (decide (input_string = EmptyString)) as [Hempty|Hne].
  { split; [|by left]. split; [by left|done]. }
  set (X := list_to_set (chars input_string) ∖ list_to_set alphabet_
            : gset string).
  assert (HX : ∀ c, c ∈ X ↔ c ∈ chars input_string ∧ c ∉ alphabet_).
  { intros c. unfold X. rewrite elem_of_difference, !elem_of_list_to_set.
    done. }
  destruct (decide (X ≠ ∅)) as [Hbad|Hgood].
  - split.
    + split; [done|]. intros [?|Hall]; [done|]. exfalso. apply Hbad.
      apply leibniz_equiv, elem_of_equiv_empty. intros c [Hc Hnc]%HX.
      by apply Hnc, Hall.
    + right. exists (sorted X).
      destruct (sorted_spec X) as (Hsorted & Hnodup & Helem).
      split; [done|]. split.
      { intros Hnil. apply Hbad.
        apply leibniz_equiv, elem_of_equiv_empty. intros c Hc%Helem.
        rewrite Hnil in Hc. by apply elem_of_nil in Hc. }
      split; [done|]. split; [done|].
      intros c. by rewrite Helem, HX.
  - apply dec_stable in Hgood. split; [|by left].
    split; [|done]. intros _. right. intros c Hc.
    destruct (decide (c ∈ alphabet_)) as [|Hnc]; [done|]. exfalso.
    assert (c ∈ X) as Hin by (by apply HX).
    rewrite Hgood in Hin. by apply not_elem_of_empty in Hin.
Qed.


Lemma high_byte_not_quote b :
  (128 ≤ N_of_ascii b)%N → bool_decide (single_quote = b) = false.
Proof.
  intros Hb. apply bool_decide_eq_false_2. intros <-.
  change (N_of_ascii single_quote) with 39%N in Hb. lia.
Qed.

Lemma repr_str_plain c :
  plain_symbol c → repr_str c = "'" +:+ c +:+ "'".
Proof.
  intros [(b & -> & Hb & Hq & Hbs)|(Hc & Hcp & Hp)].
  - unfold repr_str. cbn [occurs].
    rewrite (bool_decide_eq_false_2 (single_quote = b)) by congruence.
    cbn [orb andb]. unfold chars, chars_from. cbn [fmap list_fmap join foldr].
    unfold repr_character.
    replace (nat_of_ascii b <? 128)%nat with true
      by (symmetry; apply Nat.ltb_lt; unfold nat_of_ascii; lia).
    unfold repr_char, nat_of_ascii.
    rewrite decide_False by (intros [?|?]; congruence).
    rewrite !decide_False by lia. reflexivity.
  - assert (occurs single_quote c = false) as Hno.
    { destruct Hc as [b0 Hlow| | |]; cbn [occurs];
        [cbn [code_point] in Hcp; lia|..];
        unfold continuation in *;
        by rewrite !high_byte_not_quote by lia. }
    unfold repr_str. rewrite Hno. cbn [andb].
    pose proof (chars_character c EmptyString Hc I) as Hchars.
    rewrite string_app_nil_r in Hchars. rewrite Hchars.
    cbn [chars fmap list_fmap join foldr].
    assert (repr_character single_quote c = c) as ->.
    { unfold repr_character, repr_wide. rewrite Hp.
      destruct Hc as [b0 Hlow| | |]; try reflexivity.
      cbn [code_point] in Hcp. lia. }
    by rewrite string_app_nil_r.
Qed.

Lemma repr_list_plain invalid :
  Forall plain_symbol invalid →
  repr_list invalid
  = "[" +:+ join_comma ((λ c, "'" +:+ c +:+ "'") <$> invalid) +:+ "]".
Proof.
  intros Hplain. unfold repr_list.
  assert (repr_str <$> invalid = (λ c, "'" +:+ c +:+ "'") <$> invalid)
    as ->; [|done].
  apply Forall_fmap_ext_1. eapply Forall_impl; [exact Hplain|].
  intros c Hc. by apply repr_str_plain.
Qed.

Lemma sorted_by_code_point (l : list string) :
  StronglySorted String.le l → NoDup l → Forall is_character l →
  StronglySorted (λ a b, (code_point a < code_point b)%N) l.
Proof.
  induction 1 as [|a l Hl IH Hall]; intros Hnodup Hchars; [constructor|].
  apply NoDup_cons in Hnodup as [Hnotin Hnodup].
  apply Forall_cons in Hchars as [Ha Hchars].
  constructor; [by apply IH|].
  apply Forall_forall. intros b Hb.
  pose proof (proj1 (Forall_forall _ _) Hall b Hb) as Hle.
  pose proof (proj1 (Forall_forall _ _) Hchars b Hb) as Hbc.
  apply (character_order a b Ha Hbc) in Hle.
  destruct (decide (code_point a = code_point b)) as [Heq|Hne]; [|lia].
  exfalso. apply Hnotin.
  assert (String.le b a) as Hba by (apply character_order; [done..|lia]).
  assert (String.le a b) as Hab by (apply character_order; [done..|lia]).
  by rewrite (anti_symm String.le a b Hab Hba).
Qed.

(** C9: for every input string, given by its characters [cs],
    [validate_input_string] returns [True] with the empty message
    exactly when the string is empty or each of its characters is in the
    alphabet; in every other case it returns [False] with the message
    made of the prefix and the printed list ([repr]) of the characters of
    the string that are not in the alphabet, each once, in increasing
    order of their code points.  When these are plain symbols the
    printed list is each of them between single quotes, separated by a
    comma and a space, between square brackets. *)
Theorem validate_input_string_spec (cs alphabet_ : list string) :
  Forall is_character cs →
  (validate_input_string (join cs) alphabet_ = (true, EmptyString) ↔
   cs = [] ∨ ∀ c, c ∈ cs → c ∈ alphabet_) ∧
  (validate_input_string (join cs) alphabet_ = (true, EmptyString) ∨
   ∃ invalid : list string,
     validate_input_string (join cs) alphabet_ =
       (false, "Símbolos inválidos: " +:+ repr_list invalid) ∧
     invalid ≠ [] ∧
     StronglySorted (λ a b, (code_point a < code_point b)%N) invalid ∧
     NoDup invalid ∧
     (∀ c, c ∈ invalid ↔ c ∈ cs ∧ c ∉ alphabet_) ∧
     (Forall plain_symbol invalid →
      repr_list invalid
      = "[" +:+ join_comma ((λ c, "'" +:+ c +:+ "'") <$> invalid)
        +:+ "]")).
Proof.
  intros Hcs.
  destruct (validate_input_string_chars (join cs) alphabet_)
    as [Hvalid Hmessage].
  rewrite (chars_join cs Hcs) in Hvalid, Hmessage.
  split.
  - rewrite Hvalid. split; (intros [Hempty|Hall]; [left|by right]).
    + by apply join_nil_inv.
    + by rewrite Hempty.
  - destruct Hmessage as [?|(invalid & Hret & Hne & Hsorted & Hnodup & Hin)];
      [by left|right].
    exists invalid. split; [done|]. split; [done|]. split.
    { apply sorted_by_code_point; [done|done|].
      apply Forall_forall. intros c Hc. apply Hin in Hc as [Hc _].
      by apply (proj1 (Forall_forall _ _) Hcs). }
    split; [done|]. split; [done|]. apply repr_list_plain.
Qed.

End UtilsFacts.

Example validate_input_string_example :
  validate_input_string "abdcac" ["a"; "b"]
  = (false, "Símbolos inválidos: ['c', 'd']") ∧
  validate_input_string "abba" ["a"; "b"] = (true, EmptyString) ∧
  validate_input_string EmptyString [] = (true, EmptyString).
Proof. split_and!; vm_compute; reflexivity. Qed.

(** ** Concrete runs *)

Lemma built_eq x : is_built x = true → x = inr (built x).
Proof. by destruct x. Qed.

Lemma returned_eq {A} (o : outcome A) a :
  returned o = Some a → o = Returned a (object_after o).
Proof. destruct o; simpl; congruence. Qed.

Lemma raised_eq {A} (o : outcome A) e :
  raised o = Some e → o = Raised e (object_after o).
Proof. destruct o; simpl; congruence. Qed.

(** Evaluation on closed objects.  A goal
    [call = Returned a (object_after call)] is reduced to the value
    returned, so that no object is ever printed in normal form. *)
Ltac evaluate :=
  lazymatch goal with
  | |- ?o = Returned ?a _ =>
      refine (returned_eq o a _); vm_compute; reflexivity
  | |- ?o = Raised ?e _ =>
      refine (raised_eq o e _); vm_compute; reflexivity
  | |- ?x = inr _ =>
      refine (built_eq x _); vm_compute; reflexivity
  | |- _ = _ => vm_compute; reflexivity
  | |- _ => compute_done
  end.

(** The theorem on the machine for [(a|b)*abb] after [reset] on the
    empty input: the first call of [step] halts in [qr], and every call
    after it returns that same result. *)
Lemma step_after_halt_witness :
  ∃ m self r self',
    regex_1_machine = inr m ∧
    reset EmptyString m = Returned tt self ∧
    step self = Returned r self' ∧
    r_continue r = false ∧
    r_message r = "CADENA RECHAZADA" ∧
    ∀ k, call_again k self' = Returned r self'.
Proof.
  pose (m := built regex_1_machine).
  pose (self := object_after (reset EmptyString m)).
  pose (self' := object_after (step self)).
  pose (r := snapshot false "CADENA RECHAZADA" self').
  assert (Hstep : step self = Returned r self') by evaluate.
  assert (Hmsg : r_message r ≠ "RECHAZADA: No hay transición definida")
    by discriminate.
  exists m, self, r, self'.
  split; [evaluate|]. split; [evaluate|].
  do 3 (split; [done|]).
  destruct (step_after_halt self r self' Hstep eq_refl (or_introl Hmsg))
    as (Hcalls & _ & _ & _ & _ & Hsame).
  intros k. rewrite (Hcalls k). reflexivity.
Defined.

(** Two runs on which a call after the halting one differs.  Without
    reject states the halting call leaves the state [qr], which is not
    terminal, and the next call appends to the history again.  On the
    machine for [(a|b)*abb] and the input [c], the halting call carries
    the no-transition message and the next call the plain reject
    message. *)
Lemma step_after_halt_counterexample :
  (∃ m self r self' self'',
     machine_without_reject_states = inr m ∧
     reset EmptyString m = Returned tt self ∧
     step self = Returned r self' ∧ r_continue r = false ∧
     step self' = Returned r self'' ∧
     length (history self') = 2%nat ∧ length (history self'') = 3%nat) ∧
  (∃ m self r self' r',
     regex_1_machine = inr m ∧
     reset "c" m = Returned tt self ∧
     step self = Returned r self' ∧ r_continue r = false ∧
     step self' = Returned r' self' ∧
     r_message r = "RECHAZADA: No hay transición definida" ∧
     r_message r' = "CADENA RECHAZADA").
Proof.
  split.
  - pose (m := built machine_without_reject_states).
    pose (self := object_after (reset EmptyString m)).
    pose (self' := object_after (step self)).
    pose (self'' := object_after (step self')).
    exists m, self,
      (snapshot false "RECHAZADA: No hay transición definida" self'),
      self', self''.
    split_and!; evaluate.
  - pose (m := built regex_1_machine).
    pose (self := object_after (reset "c" m)).
    pose (self' := object_after (step self)).
    exists m, self,
      (snapshot false "RECHAZADA: No hay transición definida" self'),
      self', (snapshot false "CADENA RECHAZADA" self').
    do 4 (split; [evaluate|]).
    split; [apply step_rejecting; evaluate|].
    split; evaluate.
Qed.

(** On a freshly constructed object the tape is empty; [get_status()]
    leaves it with one blank. *)
Lemma get_status_counterexample :
  ∃ m status m',
    regex_1_machine = inr m ∧ reachable m ∧
    get_status m = Returned status m' ∧
    tape m = [] ∧ tape m' = ["_"] ∧ st_tape status = ["_"].
Proof.
  pose (m := built regex_1_machine).
  assert (Hm : regex_1_machine = inr m) by evaluate.
  eexists m, _, (object_after (get_status m)).
  split; [done|]. split; [by eapply reachable_init|].
  split; [apply get_status_returns|].
  split_and!; evaluate.
Qed.

(** The theorem on the machine for [(a|b)*abb] after [reset] on the
    input [c], for which [q0] has no entry. *)
Lemma step_undefined_transition_witness :
  ∃ m self self',
    regex_1_machine = inr m ∧
    reset "c" m = Returned tt self ∧
    (current_state self ∉ accept_states self) ∧
    (current_state self ∉ reject_states self) ∧
    symbol_under_head self = Some "c" ∧
    transitions self !! (current_state self, "c") = None ∧
    step self =
      Returned (snapshot false "RECHAZADA: No hay transición definida" self')
               self' ∧
    current_state self' ∈ reject_states self.
Proof.
  pose (m := built regex_1_machine).
  pose (self := object_after (reset "c" m)).
  assert (Ha : current_state self ∉ accept_states self) by evaluate.
  assert (Hr : current_state self ∉ reject_states self) by evaluate.
  assert (Hs : symbol_under_head self = Some "c") by evaluate.
  assert (Ht : transitions self !! (current_state self, "c") = None)
    by evaluate.
  destruct (step_undefined_transition self "c" Ha Hr Hs Ht)
    as (self' & Hstep & Hin & _).
  exists m, self, self'.
  split; [evaluate|]. split; [evaluate|].
  do 5 (split; [done|]). apply Hin. evaluate.
Defined.

(** Without reject states an undefined transition raises nothing: the
    call returns, and the state it leaves, [qr], is not a reject state. *)
Lemma step_undefined_transition_counterexample :
  ∃ m self r self',
    machine_without_reject_states = inr m ∧
    reset EmptyString m = Returned tt self ∧
    reject_states self = ∅ ∧
    (current_state self ∉ accept_states self) ∧
    (current_state self ∉ reject_states self) ∧
    symbol_under_head self = Some "_" ∧
    transitions self !! (current_state self, "_") = None ∧
    step self = Returned r self' ∧
    r_continue r = false ∧
    current_state self' = "qr" ∧
    current_state self' ∉ reject_states self'.
Proof.
  pose (m := built machine_without_reject_states).
  pose (self := object_after (reset EmptyString m)).
  pose (self' := object_after (step self)).
  exists m, self,
    (snapshot false "RECHAZADA: No hay transición definida" self'), self'.
  split_and!; evaluate.
Qed.

(** The constructor accepts overlapping accept and reject sets and an
    initial state that is not among the states. *)
Lemma init_counterexample :
  ∃ m,
    machine_with_overlap = inr m ∧
    "qa" ∈ accept_states m ∧ "qa" ∈ reject_states m ∧
    initial_state m = "zz" ∧ initial_state m ∉ states m.
Proof.
  exists (built machine_with_overlap). split_and!; evaluate.
Qed.

(** The theorem on a freshly constructed object, whose head (0) is
    outside its empty tape. *)
Lemma tape_extension_keeps_content_witness :
  ∃ m self' (k n : nat),
    regex_1_machine = inr m ∧ reachable m ∧
    _ensure_tape_bounds m = Returned tt self' ∧
    tape self' = replicate k (blank_symbol m) ++ tape m
                 ++ replicate n (blank_symbol m) ∧
    PyList.getitem (tape self') (head_position self')
      = Some (blank_symbol m).
Proof.
  pose (m := built regex_1_machine).
  assert (Hm : regex_1_machine = inr m) by evaluate.
  assert (Hreach : reachable m) by (by eapply reachable_init).
  destruct (tape_extension_keeps_content m Hreach)
    as (self' & k & n & Hret & Htape & _ & _ & _ & Hblank & _).
  exists m, self', k, n. do 4 (split; [done|]).
  apply Hblank. evaluate.
Defined.

(** The theorem on the freshly constructed machine for [(a|b)*abb], and
    on the one whose entry for the initial state and the blank has the
    direction [X]. *)
Lemma step_before_reset_witness :
  (∃ m,
     regex_1_machine = inr m ∧
     symbol_under_head m = Some "_" ∧
     step m = step (with_tape ["_"] m)) ∧
  (∃ m,
     machine_with_bad_direction = inr m ∧
     step m =
       Raised (ValueError "Dirección inválida: X. Debe ser 'R', 'L' o 'S'")
              (with_tape ["_"] m)).
Proof.
  split.
  - pose (m := built regex_1_machine).
    assert (Hm : regex_1_machine = inr m) by evaluate.
    exists m. split; [done|].
    unfold regex_1_machine in Hm.
    destruct (step_before_reset _ _ _ _ _ _ _ _ _ Hm) as (_ & Hrun & _).
    destruct Hrun as (_ & Hsym & Hstep); [evaluate|evaluate|].
    by split.
  - pose (m := built machine_with_bad_direction).
    assert (Hm : machine_with_bad_direction = inr m) by evaluate.
    exists m. split; [done|].
    unfold machine_with_bad_direction in Hm.
    destruct (step_before_reset _ _ _ _ _ _ _ _ _ Hm)
      as (_ & _ & _ & _ & Hraise).
    apply (Hraise ltac:(evaluate) ltac:(evaluate) "q0" "_" "X");
      [evaluate|discriminate..].
Defined.

(** Two freshly constructed objects.  On the first the entry for the
    initial state and the blank has the direction [X], and [step] raises
    a [ValueError].  On the second the initial state is accepting:
    [step] returns at once and the tape stays empty. *)
Lemma step_before_reset_counterexample :
  (∃ m m',
     machine_with_bad_direction = inr m ∧
     step m =
       Raised (ValueError "Dirección inválida: X. Debe ser 'R', 'L' o 'S'")
              m') ∧
  (∃ m r,
     machine_accepting_at_start = inr m ∧
     step m = Returned r m ∧
     r_message r = "CADENA ACEPTADA" ∧ r_tape r = [] ∧ tape m = []).
Proof.
  split.
  - pose (m := built machine_with_bad_direction).
    exists m, (object_after (step m)). split; evaluate.
  - pose (m := built machine_accepting_at_start).
    exists m, (snapshot false "CADENA ACEPTADA" m).
    split; [evaluate|]. split; [|split_and!; evaluate].
    apply step_accepting. evaluate.
Qed.

Section EndToEnd.
Context `{SetOrder}.

(** C8: the engine built from [REGEX_1_CONFIG] accepts [aabb] and rejects
    [ab], whether it is driven by [run] (with its default limit of 1000
    steps) or by calling [step] after [reset] until it reports
    [continue = false]: on [aabb] the fifth call halts in [qa] with the
    accept message, on [ab] the third call halts in [qr] with the reject
    message. *)
Theorem regex_1_accepts_aabb_rejects_ab :
  ∃ m,
    regex_1_machine = inr m ∧
    (∃ results r m',
       run "aabb" false 1000 m = Returned results m' ∧
       length results = 5%nat ∧ last results = Some r ∧
       r_continue r = false ∧ r_message r = "CADENA ACEPTADA" ∧
       r_state r = "qa" ∧ current_state m' = "qa" ∧
       current_state m' ∈ accept_states m' ∧
       returned (call_again 4 (object_after (reset "aabb" m))) = Some r) ∧
    (∃ results r m',
       run "ab" false 1000 m = Returned results m' ∧
       length results = 3%nat ∧ last results = Some r ∧
       r_continue r = false ∧ r_message r = "CADENA RECHAZADA" ∧
       r_state r = "qr" ∧ current_state m' = "qr" ∧
       current_state m' ∈ reject_states m' ∧
       (current_state m' ∉ accept_states m') ∧
       returned (call_again 2 (object_after (reset "ab" m))) = Some r).
Proof.
  pose (m := built regex_1_machine).
  exists m. split; [evaluate|]. split.
  - pose (o := run "aabb" false 1000 m).
    pose (m' := object_after o).
    exists (default [] (returned o)),
      (snapshot false "CADENA ACEPTADA" m'), m'.
    split_and!; evaluate.
  - pose (o := run "ab" false 1000 m).
    pose (m' := object_after o).
    exists (default [] (returned o)),
      (snapshot false "CADENA RECHAZADA" m'), m'.
    split_and!; evaluate.
Qed.

End EndToEnd.

(** ** The step limit of [run], on the samples *)

(** C5 (the code at the failing input): on the machine for [(a|b)*abb],
    [run("aabb", max_steps=5)] takes its fifth step into [qa] and reports
    the accept message; the machine is no longer running, yet the check
    after the loop finds [step_count >= max_steps], overrides the current
    state with [qr] and appends the step-limit result. *)
Theorem run_overrides_accept_at_step_limit :
  ∃ m results r5 r6 m',
    regex_1_machine = inr m ∧
    run "aabb" false 5 m = Returned results m' ∧
    length results = 6%nat ∧
    results !! 4%nat = Some r5 ∧
    r_continue r5 = false ∧ r_state r5 = "qa" ∧
    r_message r5 = "CADENA ACEPTADA" ∧
    results !! 5%nat = Some r6 ∧
    r_state r6 = "qr" ∧
    r_message r6 = "RECHAZADA: Máximo de pasos alcanzado" ∧
    current_state m' = "qr" ∧ step_count m' = 5.
Proof.
  pose (m := built regex_1_machine).
  pose (o := run "aabb" false 5 m).
  pose (results := default [] (returned o)).
  exists m, results, (default (snapshot true EmptyString m) (results !! 4%nat)),
    (default (snapshot true EmptyString m) (results !! 5%nat)),
    (object_after o).
  split_and!; evaluate.
Qed.

(** The step-limit scenario: on a definition that loops, [run] with
    [max_steps = 50] takes 50 steps, all of them continuing, then forces
    the reject state and appends the step-limit result. *)
Lemma run_looping_machine_step_limit :
  ∃ m results r m',
    looping_machine = inr m ∧
    run EmptyString false 50 m = Returned results m' ∧
    length results = 51%nat ∧
    (r_continue <$> take 50 results) = replicate 50 true ∧
    last results = Some r ∧
    r_continue r = false ∧
    r_message r = "RECHAZADA: Máximo de pasos alcanzado" ∧
    r_state r = "qr" ∧
    current_state m' = "qr" ∧ current_state m' ∈ reject_states m' ∧
    step_count m' = 50.
Proof.
  pose (m := built looping_machine).
  pose (o := run EmptyString false 50 m).
  pose (m' := object_after o).
  exists m, (default [] (returned o)),
    (snapshot false "RECHAZADA: Máximo de pasos alcanzado" m'), m'.
  split_and!; evaluate.
Qed.

(** ** More on [step], the history and [run] *)

Lemma getitem_is_Some {A} (l : list A) (i : Z) :
  - py_len l ≤ i < py_len l → is_Some (PyList.getitem l i).
Proof.
  unfold PyList.getitem, PyList.index, py_len. intros [Hlo Hhi].
  repeat case_decide; try lia; simpl; apply lookup_lt_is_Some_2; lia.
Qed.

Lemma getitem_None {A} (l : list A) (i : Z) :
  PyList.getitem l i = None → ¬ (- py_len l ≤ i < py_len l).
Proof.
  intros Hnone Hrange. apply getitem_is_Some in Hrange.
  rewrite Hnone in Hrange. by destruct Hrange.
Qed.

Lemma _save_configuration_returns self :
  - py_len (tape self) ≤ head_position self →
  ∃ symbol, _save_configuration self = Returned tt (saved symbol self).
Proof.
  intros Hlo. rewrite _save_configuration_cases.
  case_decide as Hhi; [|eauto].
  destruct (getitem_is_Some (tape self) (head_position self)) as [x ->];
    eauto.
Qed.

Section StepEffect.
Context `{SetOrder}.

Lemma step_transition_returns self sym q' w d :
  current_state self ∉ accept_states self →
  current_state self ∉ reject_states self →
  -5 ≤ head_position self →
  symbol_under_head self = Some sym →
  transitions self !! (current_state self, sym) = Some (q', w, d) →
  d = "R" ∨ d = "L" ∨ d = "S" →
  ∃ r self' sym',
    step self = Returned r self' ∧
    self' =
      saved sym'
        (with_step_count (step_count self + 1)
           (with_current_state q'
              (with_head_position (moved d (head_position (ensured self)))
                 (with_tape
                    (<[Z.to_nat (head_position (ensured self)) := w]>
                       (tape (ensured self)))
                    (ensured self))))) ∧
    r = snapshot (bool_decide ((q' ∉ accept_states self) ∧
                               (q' ∉ reject_states self)))
          (default (transition_message (current_state self) sym q' w d)
                   (halt_message self q'))
          self'.
Proof.
  unfold symbol_under_head. rewrite _ensure_tape_bounds_returns. simpl.
  intros Hna Hnr Hhead Hget Hlook Hdir.
  pose proof (ensured_head_lt self) as Hlt.
  pose proof (ensured_head_nonneg self Hhead) as Hnonneg.
  pose proof (ensured_step_count self) as Hsc.
  pose proof (ensured_current_state self) as Hcs.
  pose proof (ensured_accept_states self) as Hacc.
  pose proof (ensured_reject_states self) as Hrej.
  pose proof (ensured_transitions self) as Htr.
  rewrite <- Htr, <- Hcs in Hlook.
  assert (Hset : PyList.setitem (tape (ensured self))
                   (head_position (ensured self)) w
                 = Some (<[Z.to_nat (head_position (ensured self)) := w]>
                           (tape (ensured self))))
    by (by apply setitem_in_range).
  assert (Hlen1 : py_len (<[Z.to_nat (head_position (ensured self)) := w]>
                           (tape (ensured self)))
                  = py_len (tape (ensured self))).
  { unfold py_len. by rewrite length_insert. }
  unfold step. unfold_method.
  rewrite decide_False by done. rewrite decide_False by done.
  rewrite _ensure_tape_bounds_returns. cbn beta iota. rewrite Hget.
  rewrite Hlook. cbn beta iota. rewrite Hset. cbn beta iota.
  destruct Hdir as [-> | [-> | ->]]; simpl.
  all: match goal with
       | |- context [ _save_configuration ?s ] =>
           destruct (_save_configuration_returns s) as [sym' ->];
             [simpl; unfold py_len in *; rewrite length_insert; lia|]
       end.
  all: simpl; rewrite ?Hsc, ?Hcs, ?Hacc, ?Hrej.
  all: unfold halt_message, transition_message, moved; simpl.
  all: (destruct (decide (q' ∈ accept_states self)) as [Ha|Ha];
        [|destruct (decide (q' ∈ reject_states self)) as [Hr|Hr]]).
  all: first [ rewrite bool_decide_eq_false_2 by tauto
             | rewrite bool_decide_eq_true_2 by tauto ].
  all: eexists _, _, sym'; split; [reflexivity|].
  all: simpl; rewrite ?Hsc; split; reflexivity.
Qed.
End StepEffect.

Section StepSafety.
Context `{SetOrder}.

Lemma symbol_under_head_is_Some self :
  -5 ≤ head_position self → is_Some (symbol_under_head self).
Proof.
  intros Hhead. unfold symbol_under_head.
  rewrite _ensure_tape_bounds_returns. simpl. apply getitem_is_Some.
  pose proof (ensured_head_lt self).
  pose proof (ensured_head_nonneg self Hhead). lia.
Qed.

Lemma step_bad_direction self sym q' w d :
  current_state self ∉ accept_states self →
  current_state self ∉ reject_states self →
  -5 ≤ head_position self →
  symbol_under_head self = Some sym →
  transitions self !! (current_state self, sym) = Some (q', w, d) →
  d ≠ "R" → d ≠ "L" → d ≠ "S" →
  step self =
  Raised (ValueError ("Dirección inválida: " +:+ d +:+
                      ". Debe ser 'R', 'L' o 'S'"))
         (with_tape (<[Z.to_nat (head_position (ensured self)) := w]>
                       (tape (ensured self)))
                    (ensured self)).
Proof.
  unfold symbol_under_head. rewrite _ensure_tape_bounds_returns. simpl.
  intros Hna Hnr Hhead Hget Hlook HR HL HS.
  pose proof (ensured_head_lt self) as Hlt.
  pose proof (ensured_head_nonneg self Hhead) as Hnonneg.
  unfold step. unfold_method.
  rewrite decide_False by done. rewrite decide_False by done.
  rewrite _ensure_tape_bounds_returns. cbn beta iota. rewrite Hget.
  rewrite ensured_transitions, ensured_current_state, Hlook. cbn beta iota.
  rewrite setitem_in_range by done. cbn beta iota.
  rewrite !decide_False by done. by rewrite decide_True by done.
Qed.

(** X1: on a reachable object [step] raises in one case only: the state
    is neither accepting nor rejecting and the entry of the table for the
    current state and the symbol under the head has a direction other
    than [R], [L], [S].  The exception is the [ValueError] naming that
    direction; it is raised after the symbol of the entry has been
    written to the tape and before anything else changes, so the object
    keeps its state, step count and history.  In particular no
    [IndexError] escapes. *)
Theorem step_raises_only_on_bad_direction self e self' :
  reachable self →
  step self = Raised e self' →
  ∃ sym q' w d,
    (current_state self ∉ accept_states self) ∧
    (current_state self ∉ reject_states self) ∧
    symbol_under_head self = Some sym ∧
    transitions self !! (current_state self, sym) = Some (q', w, d) ∧
    d ≠ "R" ∧ d ≠ "L" ∧ d ≠ "S" ∧
    e = ValueError ("Dirección inválida: " +:+ d +:+
                    ". Debe ser 'R', 'L' o 'S'") ∧
    (let bounded := object_after (_ensure_tape_bounds self) in
     tape self' = <[Z.to_nat (head_position bounded) := w]> (tape bounded) ∧
     head_position self' = head_position bounded) ∧
    current_state self' = current_state self ∧
    step_count self' = step_count self ∧
    history self' = history self.
Proof.
  intros Hreach Hstep. apply reachable_head_lower_bound in Hreach.
  assert (Hhead : -5 ≤ head_position self) by lia.
  destruct (decide (current_state self ∈ accept_states self)) as [Ha|Ha].
  { by rewrite step_accepting in Hstep. }
  destruct (decide (current_state self ∈ reject_states self)) as [Hr|Hr].
  { by rewrite step_rejecting in Hstep. }
  destruct (symbol_under_head_is_Some self Hhead) as [sym Hsym].
  destruct (transitions self !! (current_state self, sym))
    as [[[q' w] d]|] eqn:Hlook.
  2:{ by rewrite (step_no_transition self sym) in Hstep. }
  destruct (decide (d = "R" ∨ d = "L" ∨ d = "S")) as [Hdir|Hdir].
  { destruct (step_transition_returns self sym q' w d)
      as (r & s1 & sym' & Hret & _); try done. congruence. }
  assert (d ≠ "R" ∧ d ≠ "L" ∧ d ≠ "S") as (HR & HL & HS) by tauto.
  rewrite (step_bad_direction self sym q' w d) in Hstep by done.
  simplify_eq. exists sym, q', w, d.
  rewrite _ensure_tape_bounds_returns. simpl.
  by autorewrite with ensured.
Qed.

(** X2: on a reachable object in a state that is neither accepting nor
    rejecting, a table entry with direction [R], [L] or [S] for the
    current state and the symbol under the head makes [step] return,
    having written the entry's symbol at the head cell and nowhere else
    (the tape keeps the length [_ensure_tape_bounds] gave it), moved the
    head by one cell or left it, entered the entry's state, added one to
    the step count and appended one history entry; the result says
    [continue] exactly when the new state is neither accepting nor
    rejecting. *)
Theorem step_applies_transition self sym q' w d :
  reachable self →
  current_state self ∉ accept_states self →
  current_state self ∉ reject_states self →
  symbol_under_head self = Some sym →
  transitions self !! (current_state self, sym) = Some (q', w, d) →
  d = "R" ∨ d = "L" ∨ d = "S" →
  ∃ r self',
    step self = Returned r self' ∧
    (let bounded := object_after (_ensure_tape_bounds self) in
     tape self' = <[Z.to_nat (head_position bounded) := w]> (tape bounded) ∧
     length (tape self') = length (tape bounded) ∧
     (∀ i : nat, i ≠ Z.to_nat (head_position bounded) →
                 tape self' !! i = tape bounded !! i) ∧
     head_position self' = moved d (head_position bounded)) ∧
    current_state self' = q' ∧
    step_count self' = step_count self + 1 ∧
    length (history self') = S (length (history self)) ∧
    same_definition self self' ∧
    r = snapshot (bool_decide ((q' ∉ accept_states self) ∧
                               (q' ∉ reject_states self)))
                 (r_message r) self' ∧
    r_message r =
      default (transition_message (current_state self) sym q' w d)
              (halt_message self q').
Proof.
  intros Hreach Hna Hnr Hsym Hlook Hdir.
  apply reachable_head_lower_bound in Hreach.
  destruct (step_transition_returns self sym q' w d)
    as (r & self' & sym' & Hret & -> & ->); try done; [lia|].
  eexists _, _. split; [exact Hret|].
  rewrite _ensure_tape_bounds_returns. simpl.
  autorewrite with ensured. rewrite length_app, length_insert. simpl.
  split_and!; try done; try lia;
    first [ intros i Hi; by rewrite list_lookup_insert_ne
          | by destruct (ensured_frame self) as (?&_) ].
Qed.

End StepSafety.

#[global] Instance same_definition_sym : Symmetric same_definition.
Proof. intros a b (?&?&?&?&?&?&?&?). by repeat split. Qed.

Section HistoryAndRun.
Context `{SetOrder}.

Lemma call_again_after_steps k self :
  call_again k self = step (after_steps k self).
Proof. revert self. induction k as [|k IH]; intros self; simpl; eauto. Qed.

Lemma after_steps_S k self :
  after_steps (S k) self = object_after (step (after_steps k self)).
Proof.
  revert self. induction k as [|k IH]; intros self; [done|].
  change (after_steps (S (S k)) self)
    with (after_steps (S k) (object_after (step self))).
  by rewrite IH.
Qed.

Lemma saved_history_current symbol self :
  history_current (saved symbol self).
Proof.
  eexists. simpl. rewrite last_snoc. split; [done|]. by simpl.
Qed.

Lemma step_keeps_history_current self r self' :
  history_current self → step self = Returned r self' →
  history_current self' ∧ history self `prefix_of` history self'.
Proof.
  pose proof (ensured_history self) as Hh.
  intros Hcur. step_cases; intros Hstep; simplify_eq;
    rewrite ?Hh;
    first [ by split
          | split; [apply saved_history_current|by eexists] ].
Qed.

(** X3: after [reset] and any number of calls of [step] that all
    returned, the history still begins with what [reset] put there (it
    is only ever appended to) and its last entry records the step count,
    state, tape and head position the object has. *)
Theorem history_tracks_configuration s self k :
  (∀ j, (j < k)%nat →
        raised (call_again j (object_after (reset s self))) = None) →
  history_current (after_steps k (object_after (reset s self))) ∧
  history (object_after (reset s self))
    `prefix_of` history (after_steps k (object_after (reset s self))).
Proof.
  rewrite reset_returns. simpl object_after.
  induction k as [|k IH]; intros Hret.
  - split; [apply saved_history_current|done].
  - destruct IH as [Hcur Hpre]; [intros j Hj; apply Hret; lia|].
    rewrite after_steps_S.
    specialize (Hret k (Nat.lt_succ_diag_r k)).
    rewrite call_again_after_steps in Hret.
    destruct (step (after_steps k _)) as [r self'|e self'] eqn:Hstep;
      [|done].
    destruct (step_keeps_history_current _ _ _ Hcur Hstep) as [Hc Hp].
    split; [done|]. by etrans.
Qed.

Lemma step_count_step self :
  step_count self ≤ step_count (object_after (step self))
  ≤ step_count self + 1.
Proof.
  pose proof (ensured_step_count self).
  step_cases; lia.
Qed.



(** X5: with [max_steps <= 0] the loop of [run] is empty: [run] resets
    the object, takes no step, overrides the current state and returns
    the step-limit result alone, for every machine and every input. *)
Theorem run_without_steps s sbs (max_steps : Z) self :
  max_steps ≤ 0 →
  ∃ self',
    run s sbs max_steps self =
      Returned [snapshot false "RECHAZADA: Máximo de pasos alcanzado" self']
               self' ∧
    self' = with_current_state (reject_marker self)
              (object_after (reset s self)) ∧
    step_count self' = 0 ∧ length (history self') = 1%nat.
Proof.
  intros Hle. eexists. rewrite run_unfold, reset_returns.
  replace (Z.to_nat max_steps) with 0%nat by lia. simpl.
  rewrite decide_True by lia. by split_and!.
Qed.

(** X6: in step-by-step mode with a limit of at least two steps, [run]
    is [reset] followed by exactly one call of [step]: it returns that
    call's result alone and leaves the object as that call left it, and
    it raises if that call raises. *)
Theorem run_step_by_step s (max_steps : Z) self :
  2 ≤ max_steps →
  run s true max_steps self =
  match step (object_after (reset s self)) with
  | Returned r self' => Returned [r] self'
  | Raised e self' => Raised e self'
  end.
Proof.
  intros Hle. rewrite run_unfold, reset_returns. simpl object_after.
  destruct (Z.to_nat max_steps) as [|n] eqn:Hn; [lia|]. simpl. unfold_method.
  pose proof (step_count_step (after_reset s self)) as Hc. simpl in Hc.
  destruct (step (after_reset s self)) as [r self'|e self']; simpl in *;
    [|done].
  destruct (r_continue r); simpl; by rewrite decide_False by lia.
Qed.

Lemma after_reset_same_definition s a b :
  same_definition a b → after_reset s a = after_reset s b.
Proof.
  destruct a, b. unfold same_definition. simpl.
  intros (->&->&->&->&->&->&->&->). reflexivity.
Qed.

Lemma run_same_definition s sbs n a b :
  same_definition a b → run s sbs n a = run s sbs n b.
Proof.
  intros Hdef. rewrite !run_unfold.
  by rewrite (after_reset_same_definition s a b Hdef).
Qed.

Lemma run_loop_frame n sbs results self :
  same_definition self (object_after (run_loop n sbs results self)).
Proof.
  revert results self. induction n as [|n IH]; intros results self; simpl.
  - done.
  - unfold_method. pose proof (step_frame self) as Hf.
    destruct (step self) as [r self1|e self1]; simpl in *; [|done].
    destruct (r_continue r); simpl; [|done].
    destruct sbs; [done|]. etrans; [exact Hf|apply IH].
Qed.

Lemma run_frame s sbs n self :
  same_definition self (object_after (run s sbs n self)).
Proof.
  rewrite run_unfold.
  pose proof (run_loop_frame (Z.to_nat n) sbs [] (after_reset s self)) as Hl.
  assert (Hr : same_definition self (after_reset s self)) by repeat split.
  destruct (run_loop _ _ _ _) as [rs self1|e self1]; simpl in *.
  - case_decide; simpl; etrans; try exact Hr; try exact Hl.
  - by etrans.
Qed.

(** X7: what [run] does depends on the definition only, not on what the
    object did before: after any earlier [run], [step], [reset] or
    [get_status], a [run] returns the same results (or raises the same
    exception) and leaves the same object as on the object before that
    earlier call. *)
Theorem run_forgets_earlier_calls s sbs n self :
  (∀ s0 sbs0 n0,
     run s sbs n (object_after (run s0 sbs0 n0 self)) = run s sbs n self) ∧
  run s sbs n (object_after (step self)) = run s sbs n self ∧
  (∀ s0, run s sbs n (object_after (reset s0 self)) = run s sbs n self) ∧
  run s sbs n (object_after (get_status self)) = run s sbs n self.
Proof.
  split_and!; intros; apply run_same_definition; symmetry.
  - apply run_frame.
  - apply step_frame.
  - rewrite reset_returns. repeat split.
  - rewrite get_status_returns. by destruct (ensured_frame self).
Qed.

End HistoryAndRun.

(** X8: on a reachable object a second [get_status()] right after a
    first one returns the same dict and changes nothing: the first call
    has already brought the head inside the tape. *)
Theorem get_status_twice `{SetOrder} self :
  reachable self →
  ∃ status self',
    get_status self = Returned status self' ∧
    get_status self' = Returned status self'.
Proof.
  intros Hreach%reachable_head_lower_bound.
  assert (Hin : 0 ≤ head_position (ensured self)
                < py_len (tape (ensured self))).
  { split; [apply ensured_head_nonneg; lia|apply ensured_head_lt]. }
  eexists _, _. split; [apply get_status_returns|].
  rewrite get_status_returns, (ensured_in_range _ Hin).
  by autorewrite with ensured.
Qed.

(** ** Machines that scan their input once *)

Lemma machine_from_config_fields config self :
  machine_from_config config = inr self →
  transitions self = c_transitions config ∧
  initial_state self = c_initial_state config ∧
  accept_states self = list_to_set (c_accept_states config) ∧
  reject_states self = list_to_set (c_reject_states config) ∧
  blank_symbol self = "_".
Proof.
  unfold machine_from_config, __init__. case_decide; [done|].
  intros [= <-]. by simpl.
Qed.



Section Scanner.
Context `{SetOrder}.

Lemma halts_after_S n self r0 self1 r self' :
  step self = Returned r0 self1 → r_continue r0 = true →
  halts_after n self1 r self' → halts_after (S n) self r self'.
Proof.
  intros Hstep Hcont (Hrun & Hcall & Hhalt). split_and!; [|simpl|done].
  - by exists r0, self1.
  - by rewrite Hstep.
Qed.

(** Along a scan the machine behaves as the automaton [scan] computes:
    the tape is never changed, the head advances one cell per entry
    followed. *)
Lemma scan_sound cells : ∀ self pre post h n,
  scanner_shaped self →
  current_state self ∉ accept_states self →
  current_state self ∉ reject_states self →
  tape self = pre ++ cells ++ post →
  head_position self = py_len pre →
  scan (transitions self) (accept_states self) (reject_states self)
       (current_state self) cells = Some (h, n) →
  ∃ r self',
    halts_after n self r self' ∧ same_definition self self' ∧
    tape self' = tape self ∧
    head_position self' = py_len pre + Z.of_nat n ∧
    match h with
    | HaltsIn q' =>
        current_state self' = q' ∧
        step_count self' = step_count self + Z.of_nat n + 1 ∧
        (q' ∈ accept_states self ∨ q' ∈ reject_states self) ∧
        r = snapshot false (if decide (q' ∈ accept_states self)
                            then "CADENA ACEPTADA"
                            else "CADENA RECHAZADA") self'
    | HaltsWithoutEntry =>
        current_state self' = reject_marker self ∧
        step_count self' = step_count self + Z.of_nat n ∧
        r = snapshot false "RECHAZADA: No hay transición definida" self'
    end.
Proof.
  induction cells as [|c cells IH]; intros self pre post h n
    Hshape Hna Hnr Htape Hhead Hscan; [done|].
  assert (Hin : 0 ≤ head_position self < py_len (tape self)).
  { rewrite Hhead, Htape. unfold py_len. rewrite !length_app. simpl. lia. }
  assert (Hens : ensured self = self) by (by apply ensured_in_range).
  assert (Hsym : symbol_under_head self = Some c).
  { unfold symbol_under_head. rewrite _ensure_tape_bounds_returns. simpl.
    rewrite Hens, getitem_in_range by done. rewrite Hhead, Htape.
    unfold py_len. rewrite Nat2Z.id.
    rewrite lookup_app_r by lia. by rewrite Nat.sub_diag. }
  assert (Hcell : tape self !! Z.to_nat (head_position self) = Some c).
  { rewrite Hhead, Htape. unfold py_len. rewrite Nat2Z.id.
    rewrite lookup_app_r by lia. by rewrite Nat.sub_diag. }
  simpl in Hscan.
  destruct (transitions self !! (current_state self, c))
    as [[[q' w] d]|] eqn:Hlook.
  - pose proof (Hshape _ _ Hlook) as [Hw Hd]. simpl in Hw, Hd. subst w.
    assert (Hdir : d = "R" ∨ d = "L" ∨ d = "S").
    { destruct Hd as [(-> & _)|(-> & _)]; auto. }
    destruct (step_transition_returns self c q' c d)
      as (r & self1 & sym' & Hstep & Hself1 & Hr); try done; [lia|].
    rewrite Hens in Hself1. rewrite list_insert_id in Hself1 by done.
    destruct (decide (q' ∈ accept_states self ∨ q' ∈ reject_states self))
      as [Hterm|Hterm];
      [rewrite bool_decide_eq_true_2 in Hscan by done
      |rewrite bool_decide_eq_false_2 in Hscan by done].
    + (* the entry halts the machine *)
      destruct Hd as [(_ & ? & ?)|[-> _]]; [tauto|].
      simplify_eq. eexists _, _. split.
      { split_and!; [done|exact Hstep|].
        simpl. apply bool_decide_eq_false_2. tauto. }
      simpl. unfold moved. simpl.
      split_and!; try done; try lia; try (by destruct self).
      rewrite bool_decide_eq_false_2 by tauto.
      unfold halt_message. repeat case_decide; try done; tauto.
    + (* the entry moves on *)
      destruct Hd as [(-> & Hqa & Hqr)|[_ ?]]; [|tauto].
      destruct (scan _ _ _ q' cells) as [[h' n']|] eqn:Hscan'; [|done].
      simpl in Hscan. injection Hscan as <- <-.
      assert (Hdef : same_definition self self1).
      { subst self1. by destruct self. }
      pose proof Hdef as (_&_&_&Htr&_&Hacc&Hrej&_).
      destruct (IH self1 (pre ++ [c]) post h' n') as
        (r' & self' & Hhalt & Hdef' & Htape' & Hhead' & Hh).
      * unfold scanner_shaped. by rewrite <- Htr, <- Hacc, <- Hrej.
      * subst self1. simpl. by rewrite ?Hacc.
      * subst self1. simpl. by rewrite ?Hrej.
      * subst self1. simpl. rewrite Htape. by rewrite <- !app_assoc.
      * subst self1. simpl. unfold moved. simpl. rewrite Hhead.
        unfold py_len. rewrite length_app. simpl. lia.
      * rewrite <- Htr, <- Hacc, <- Hrej. subst self1. exact Hscan'.
      * exists r', self'. split.
        { eapply halts_after_S; [exact Hstep| |exact Hhalt].
          subst r. simpl. apply bool_decide_eq_true_2. tauto. }
        split; [by etrans|]. split.
        { rewrite Htape'. by subst self1. }
        split.
        { rewrite Hhead'. unfold py_len. rewrite length_app. simpl. lia. }
        assert (Hsc : step_count self1 = step_count self + 1)
          by (by subst self1).
        rewrite <- (reject_marker_same_definition _ _ Hdef) in Hh.
        rewrite <- Hacc, <- Hrej in Hh.
        destruct h' as [q''|].
        -- destruct Hh as (? & ? & ? & ?). split_and!; try done; lia.
        -- destruct Hh as (? & ? & ?). split_and!; try done; lia.
  - simplify_eq. eexists _, _. split.
    { split_and!; [done|simpl; by apply (step_no_transition self c)|done]. }
    rewrite Hens. simpl. split_and!; try done; try lia;
      try (by destruct self).
Qed.

End Scanner.

Section RunOfHalt.
Context `{SetOrder}.

Lemma run_loop_halts n : ∀ N results self r self',
  halts_after n self r self' → (n < N)%nat →
  ∃ rs,
    run_loop N false results self = Returned (results ++ rs ++ [r]) self' ∧
    length rs = n ∧ Forall (λ r0, r_continue r0 = true) rs ∧
    step_count self' ≤ step_count self + Z.of_nat n + 1 ∧
    ∀ j rj, rs !! j = Some rj →
            returned (call_again j self) = Some rj.
Proof.
  induction n as [|n IH]; intros N results self r self'
    (Hrun & Hcall & Hhalt) HN; (destruct N as [|N]; [lia|]).
  - simpl in Hcall. exists []. simpl. unfold_method.
    rewrite Hcall, Hhalt. simpl. split_and!; try done.
    pose proof (step_count_step self) as Hc. rewrite Hcall in Hc.
    simpl in Hc. lia.
  - destruct Hrun as (r0 & self1 & Hstep & Hcont & Hrun).
    simpl in Hcall. rewrite Hstep in Hcall. simpl in Hcall.
    destruct (IH N (results ++ [r0]) self1 r self') as
      (rs & Hloop & Hlen & Hall & Hcount & Hcalls); [done|lia|].
    exists (r0 :: rs). simpl. unfold_method. rewrite Hstep, Hcont. simpl.
    rewrite Hloop, <- app_assoc. simpl. split_and!; try done.
    + by rewrite Hlen.
    + by constructor.
    + rewrite (step_continue_counts _ _ _ Hstep Hcont) in Hcount. lia.
    + intros [|j] rj Hj; simpl in Hj |- *.
      * injection Hj as <-. by rewrite Hstep.
      * rewrite Hstep. simpl. by apply Hcalls.
Qed.

(** X9: if, after [reset], the machine halts at its [(n+1)]-th call of
    [step], then [run] with a limit of more than [n + 1] steps returns
    exactly the results of those [n + 1] calls, in order: [n] results,
    the [j]-th being what the [j]-th call of [step] after [reset]
    returns, each with [continue = true], and then the result of the
    halting call; it leaves the object as the halting call left it: no
    step-limit result is appended and the state is not overridden. *)
Theorem run_reports_halt s (max_steps : Z) self n r self' :
  halts_after n (object_after (reset s self)) r self' →
  Z.of_nat n + 1 < max_steps →
  ∃ rs,
    run s false max_steps self = Returned (rs ++ [r]) self' ∧
    length rs = n ∧ Forall (λ r0, r_continue r0 = true) rs ∧
    ∀ j rj, rs !! j = Some rj →
            returned (call_again j (object_after (reset s self)))
            = Some rj.
Proof.
  rewrite reset_returns. simpl object_after. intros Hhalt Hlt.
  destruct (run_loop_halts n (Z.to_nat max_steps) [] _ r self' Hhalt)
    as (rs & Hloop & Hlen & Hall & Hcount & Hcalls); [lia|].
  simpl in Hloop, Hcount. exists rs.
  rewrite run_unfold, Hloop. by rewrite decide_False by lia.
Qed.

Lemma scan_after_reset s self h n :
  scanner_shaped self →
  initial_state self ∉ accept_states self →
  initial_state self ∉ reject_states self →
  scan (transitions self) (accept_states self) (reject_states self)
       (initial_state self) (chars s ++ [blank_symbol self]) = Some (h, n) →
  ∃ r self',
    halts_after n (object_after (reset s self)) r self' ∧
    same_definition self self' ∧
    tape self' = tape (object_after (reset s self)) ∧
    head_position self' = 5 + Z.of_nat n ∧
    match h with
    | HaltsIn q' =>
        current_state self' = q' ∧
        step_count self' = Z.of_nat n + 1 ∧
        (q' ∈ accept_states self ∨ q' ∈ reject_states self) ∧
        r = snapshot false (if decide (q' ∈ accept_states self)
                            then "CADENA ACEPTADA"
                            else "CADENA RECHAZADA") self'
    | HaltsWithoutEntry =>
        current_state self' = reject_marker self ∧
        step_count self' = Z.of_nat n ∧
        r = snapshot false "RECHAZADA: No hay transición definida" self'
    end.
Proof.
  intros Hshape Hna Hnr Hscan. rewrite reset_returns. simpl object_after.
  destruct (scan_sound (chars s ++ [blank_symbol self])
              (after_reset s self) (replicate 5 (blank_symbol self))
              (replicate 4 (blank_symbol self)) h n)
    as (r & self' & Hhalt & Hdef & Htape & Hhead & Hh); try done.
  - simpl. by rewrite <- !app_assoc.
  - exists r, self'. split; [done|]. split.
    { etrans; [|exact Hdef]. repeat split. }
    split; [done|]. split; [exact Hhead|].
    destruct h; simpl in Hh; naive_solver.
Qed.

End RunOfHalt.

(** ** The language of each shipped machine *)


Ltac states Hq :=
  repeat (apply elem_of_cons in Hq as [->|Hq]);
    [..|by apply elem_of_nil in Hq].
















(** ** From the automaton to [run] *)

Lemma scanner_shaped_same_definition a b :
  same_definition a b → scanner_shaped a → scanner_shaped b.
Proof.
  intros (_ & _ & _ & Htr & _ & Hacc & Hrej & _).
  unfold scanner_shaped. by rewrite Htr, Hacc, Hrej.
Qed.

Section RunOfScan.
Context `{SetOrder}.

Lemma run_of_scan s (max_steps : Z) self h n :
  scanner_shaped self →
  initial_state self ∉ accept_states self →
  initial_state self ∉ reject_states self →
  scan (transitions self) (accept_states self) (reject_states self)
       (initial_state self) (chars s ++ [blank_symbol self]) = Some (h, n) →
  Z.of_nat n + 1 < max_steps →
  ∃ rs r self',
    run s false max_steps self = Returned (rs ++ [r]) self' ∧
    length rs = n ∧
    Forall (λ r0, r_continue r0 = true) rs ∧
    r_continue r = false ∧ r_state r = current_state self' ∧
    tape self' = replicate 5 (blank_symbol self) ++ chars s
                 ++ replicate 5 (blank_symbol self) ∧
    match h with
    | HaltsIn q =>
        current_state self' = q ∧
        (q ∈ accept_states self ∨ q ∈ reject_states self)
    | HaltsWithoutEntry => current_state self' = reject_marker self
    end.
Proof.
  intros Hshape Hna Hnr Hscan Hlt.
  destruct (scan_after_reset s self h n)
    as (r & self' & Hhalt & Hdef & Htape & Hhead & Hh); try done.
  pose proof Hhalt as Hhalt0. rewrite reset_returns in Hhalt0.
  simpl object_after in Hhalt0.
  destruct (run_loop_halts n (Z.to_nat max_steps) [] _ r self' Hhalt0)
    as (rs & Hloop & Hlen & Hall & Hcount & _); [lia|].
  simpl in Hloop, Hcount.
  exists rs, r, self'. split.
  { rewrite run_unfold, Hloop. by rewrite decide_False by lia. }
  split; [done|]. split; [done|].
  split; [by destruct Hhalt as (_ & _ & ?)|].
  rewrite reset_returns in Htape. simpl in Htape.
  destruct h; simpl in Hh.
  - destruct Hh as (Hq & _ & Hterm & ->). by rewrite Htape.
  - destruct Hh as (Hq & _ & ->). by rewrite Htape.
Qed.

End RunOfScan.

(** ** The five shipped configurations *)

Lemma shipped_configs config :
  config ∈ TURING_MACHINES.*2 →
  config = REGEX_1_CONFIG ∨ config = REGEX_2_CONFIG ∨
  config = REGEX_3_CONFIG ∨ config = REGEX_4_CONFIG ∨
  config = REGEX_5_CONFIG.
Proof.
  simpl. rewrite !elem_of_cons, elem_of_nil. tauto.
Qed.

Lemma elem_of_accept_qa q : q ∈ accept_qa ↔ q = "qa".
Proof.
  unfold accept_qa. rewrite elem_of_list_to_set, elem_of_cons, elem_of_nil.
  tauto.
Qed.

Lemma elem_of_reject_qr q : q ∈ reject_qr ↔ q = "qr".
Proof.
  unfold reject_qr. rewrite elem_of_list_to_set, elem_of_cons, elem_of_nil.
  tauto.
Qed.

Lemma shipped_definition `{SetOrder} config self :
  config ∈ TURING_MACHINES.*2 →
  same_definition (built (machine_from_config config)) self →
  transitions self = c_transitions config ∧
  initial_state self = "q0" ∧
  accept_states self = accept_qa ∧
  reject_states self = reject_qr ∧
  blank_symbol self = "_" ∧
  scanner_shaped self ∧
  reject_marker self = "qr".
Proof.
  intros Hin Hdef.
  assert (is_built (machine_from_config config) = true ∧
          c_initial_state config = "q0" ∧
          c_accept_states config = ["qa"] ∧
          c_reject_states config = ["qr"] ∧
          scanner_shaped (built (machine_from_config config)))
    as (Hbuilt & Hq0 & Hacc & Hrej & Hshape).
  { apply shipped_configs in Hin.
    destruct Hin as [-> | [-> | [-> | [-> | ->]]]].
    all: split_and!; try reflexivity.
    all: unfold scanner_shaped; compute_done. }
  apply built_eq, machine_from_config_fields in Hbuilt
    as (Htr0 & Hi0 & Ha0 & Hr0 & Hb0).
  pose proof Hdef as (_ & _ & _ & Htr & Hi & Ha & Hr & Hb).
  rewrite <- Htr, <- Hi, <- Ha, <- Hr, <- Hb.
  rewrite Hi0, Ha0, Hr0, Hq0, Hacc, Hrej.
  split_and!; try done.
  - by apply (scanner_shaped_same_definition _ _ Hdef).
  - pose proof (reject_marker_elem self) as Hmark.
    rewrite <- Hr, Hr0, Hrej in Hmark. apply elem_of_reject_qr, Hmark.
    by apply (non_empty_inhabited_L "qr"), elem_of_reject_qr.
Qed.

Section Languages.
Context `{SetOrder}.

Lemma shipped_run_within config self s (max_steps : Z) h n :
  config ∈ TURING_MACHINES.*2 →
  same_definition (built (machine_from_config config)) self →
  scan (c_transitions config) accept_qa reject_qr "q0" (chars s ++ ["_"])
  = Some (h, n) →
  Z.of_nat n + 1 < max_steps →
  ∃ rs r self',
    run s false max_steps self = Returned (rs ++ [r]) self' ∧
    length rs = n ∧
    r_continue r = false ∧ r_state r = current_state self' ∧
    tape self' = replicate 5 "_" ++ chars s ++ replicate 5 "_" ∧
    (current_state self' = "qa" ∨ current_state self' = "qr") ∧
    (current_state self' = "qa" ↔ h = HaltsIn "qa").
Proof.
  intros Hin Hdef Hscan Hlt.
  destruct (shipped_definition config self Hin Hdef)
    as (Htr & Hi & Ha & Hr & Hb & Hshape & Hmark).
  destruct (run_of_scan s max_steps self h n)
    as (rs & r & self' & Hrun & Hlen & _ & Hcont & Hstate & Htape & Hq).
  { done. }
  { rewrite Hi, Ha. by vm_compute. }
  { rewrite Hi, Hr. by vm_compute. }
  { by rewrite Htr, Hi, Ha, Hr, Hb. }
  { lia. }
  exists rs, r, self'. rewrite Hb in Htape. rewrite Ha, Hr in Hq.
  split_and!; try done.
  - destruct h as [q|]; [|by right; rewrite Hq, Hmark].
    destruct Hq as (-> & Hterm).
    by rewrite elem_of_accept_qa, elem_of_reject_qr in Hterm.
  - destruct h as [q|].
    + destruct Hq as (-> & _). split; [by intros ->|by intros [= ->]].
    + rewrite Hq, Hmark. split; intros; discriminate.
Qed.


End Languages.

(** ** The languages the five shipped machines decide *)

Section ShippedLanguages.
Context `{SetOrder}.






End ShippedLanguages.

(** ** The test harness *)

Lemma directions_valid_same_definition a b :
  same_definition a b → directions_valid a → directions_valid b.
Proof.
  intros (_ & _ & _ & Htr & _). unfold directions_valid. by rewrite Htr.
Qed.

Lemma scanner_shaped_directions_valid self :
  scanner_shaped self → directions_valid self.
Proof.
  intros Hshape. eapply map_Forall_impl; [exact Hshape|].
  intros key [[q w] d] (_ & [(-> & _)|(-> & _)]); simpl; auto.
Qed.

Section HarnessFacts.
Context `{SetOrder}.

Lemma step_returns self :
  directions_valid self → -5 ≤ head_position self →
  ∃ r self', step self = Returned r self'.
Proof.
  intros Hdir Hhead.
  destruct (decide (current_state self ∈ accept_states self)) as [Ha|Ha].
  { rewrite step_accepting by done. by eexists _, _. }
  destruct (decide (current_state self ∈ reject_states self)) as [Hr|Hr].
  { rewrite step_rejecting by done. by eexists _, _. }
  destruct (symbol_under_head_is_Some self Hhead) as [sym Hsym].
  destruct (transitions self !! (current_state self, sym))
    as [[[q' w] d]|] eqn:Hlook.
  2:{ rewrite (step_no_transition self sym) by done. by eexists _, _. }
  destruct (step_transition_returns self sym q' w d)
    as (r & self' & _ & Hret & _); try done.
  { exact (Hdir _ _ Hlook). }
  by exists r, self'.
Qed.

Lemma step_until_halt_returns n : ∀ estado self,
  directions_valid self → -1 ≤ head_position self →
  ∃ q self',
    step_until_halt n estado self = Returned q self' ∧
    same_definition self self'.
Proof.
  induction n as [|n IH]; intros estado self Hdir Hhead; simpl.
  { by exists estado, self. }
  unfold_method.
  destruct (step_returns self) as (r & self1 & Hstep); [done|lia|].
  pose proof (step_frame self) as Hdef.
  pose proof (step_head_lower_bound self Hhead) as Hhead1.
  rewrite Hstep in Hdef, Hhead1 |- *. simpl in Hdef, Hhead1.
  destruct (r_continue r); simpl.
  2:{ by eexists _, _. }
  destruct (IH (r_state r) self1) as (q & self' & Hloop & Hdef');
    [by eapply directions_valid_same_definition|done|].
  exists q, self'. split; [done|]. by etrans.
Qed.

Lemma step_until_halt_halts n : ∀ fuel estado self r self',
  halts_after n self r self' → (n < fuel)%nat →
  step_until_halt fuel estado self = Returned (r_state r) self'.
Proof.
  induction n as [|n IH]; intros fuel estado self r self'
    (Hrun & Hcall & Hhalt) Hfuel; (destruct fuel as [|fuel]; [lia|]).
  - simpl in Hcall |- *. unfold_method. by rewrite Hcall, Hhalt.
  - destruct Hrun as (r0 & self1 & Hstep & Hcont & Hrun).
    simpl in Hcall |- *. rewrite Hstep in Hcall. simpl in Hcall.
    unfold_method. rewrite Hstep, Hcont. simpl.
    apply IH; [done|lia].
Qed.

Lemma test_one_unfold results s expected tm q tm' :
  step_until_halt 1000 EmptyString (after_reset s tm) = Returned q tm' →
  test_one results (s, expected) tm
  = Returned (recorded results s expected
                (bool_decide (q ∈ accept_states tm')))
             tm'.
Proof.
  intros Hloop. unfold test_one, recorded. unfold_method.
  rewrite reset_returns. cbn beta iota. rewrite Hloop. cbn beta iota.
  destruct (Bool.eqb _ _); cbn beta iota; by rewrite Z.add_0_r.
Qed.

Lemma after_reset_head s self : head_position (after_reset s self) = 5.
Proof. done. Qed.

Lemma test_one_returns results s expected tm :
  directions_valid tm →
  ∃ got tm',
    test_one results (s, expected) tm
    = Returned (recorded results s expected got) tm' ∧
    same_definition tm tm'.
Proof.
  intros Hdir.
  destruct (step_until_halt_returns 1000 EmptyString (after_reset s tm))
    as (q & tm' & Hloop & Hdef).
  { eapply directions_valid_same_definition; [|done]. repeat split. }
  { rewrite after_reset_head. lia. }
  exists (bool_decide (q ∈ accept_states tm')), tm'.
  split; [by apply test_one_unfold|].
  etrans; [|exact Hdef]. repeat split.
Qed.

(** What [test_all] adds to the results. *)
Lemma test_all_returns tests : ∀ results tm,
  directions_valid tm →
  ∃ results' tm' new,
    test_all tests results tm = Returned results' tm' ∧
    t_total results' = t_total results ∧
    t_details results' = t_details results ++ new ∧
    d_string <$> new = tests.*1 ∧
    d_expected <$> new = tests.*2 ∧
    Forall (λ d, d_passed d = Bool.eqb (d_got d) (d_expected d)) new ∧
    t_passed results'
    = t_passed results + py_len (filter (λ d, d_passed d = true) new) ∧
    t_failed results'
    = t_failed results + py_len (filter (λ d, d_passed d = false) new).
Proof.
  induction tests as [|[s expected] tests IH]; intros results tm Hdir.
  { exists results, tm, []. simpl. rewrite app_nil_r.
    split_and!; try done; unfold py_len; simpl; lia. }
  destruct (test_one_returns results s expected tm Hdir)
    as (got & tm1 & Hone & Hdef).
  destruct (IH (recorded results s expected got) tm1)
    as (results' & tm' & new & Hall & Htotal & Hdetails & Hs & He & Hp
        & Hpassed & Hfailed).
  { by eapply directions_valid_same_definition. }
  exists results', tm', (mkDetail s expected got (Bool.eqb got expected) :: new).
  split.
  { change (test_all ((s, expected) :: tests) results tm)
      with (match test_one results (s, expected) tm with
            | Returned a self' => test_all tests a self'
            | Raised e self' => Raised e self'
            end).
    by rewrite Hone. }
  clear Hone. simpl in Htotal, Hdetails, Hpassed, Hfailed.
  split; [done|].
  split. { rewrite Hdetails. simpl. by rewrite <- app_assoc. }
  split. { by rewrite !fmap_cons, Hs. }
  split. { by rewrite !fmap_cons, He. }
  split. { by constructor. }
  rewrite Hpassed, Hfailed. simpl. unfold py_len.
  rewrite !filter_cons. simpl.
  destruct (Bool.eqb got expected); simpl; lia.
Qed.

End HarnessFacts.

(** ** The registry of machines *)

Lemma TURING_MACHINES_NoDup : NoDup TURING_MACHINES.*1.
Proof. compute_done. Qed.

Lemma get_machine_config_Some regex_name config :
  get_machine_config regex_name = Some config ↔
  (regex_name, config) ∈ TURING_MACHINES.
Proof.
  unfold get_machine_config, dict_get. symmetry.
  apply elem_of_list_to_map, TURING_MACHINES_NoDup.
Qed.

Lemma get_machine_config_None regex_name :
  get_machine_config regex_name = None ↔
  regex_name ∉ get_all_machine_names.
Proof.
  unfold get_machine_config, dict_get, get_all_machine_names.
  symmetry. apply not_elem_of_list_to_map.
Qed.

Lemma get_machine_config_is_Some regex_name :
  regex_name ∈ get_all_machine_names →
  ∃ config, get_machine_config regex_name = Some config ∧
            config ∈ TURING_MACHINES.*2.
Proof.
  intros Hin.
  destruct (get_machine_config regex_name) as [config|] eqn:Hget.
  - exists config. split; [done|].
    apply get_machine_config_Some in Hget.
    by apply (list_elem_of_fmap_2' _ _ (regex_name, config)).
  - by apply get_machine_config_None in Hget.
Qed.


Section ShippedHalts.
Context `{SetOrder}.

Lemma shipped_halts config self s h n :
  config ∈ TURING_MACHINES.*2 →
  same_definition (built (machine_from_config config)) self →
  scan (c_transitions config) accept_qa reject_qr "q0" (chars s ++ ["_"])
  = Some (h, n) →
  ∃ r self',
    halts_after n (object_after (reset s self)) r self' ∧
    same_definition self self' ∧
    r_state r = current_state self' ∧
    (current_state self' ∈ accept_states self' ↔ h = HaltsIn "qa").
Proof.
  intros Hin Hdef Hscan.
  destruct (shipped_definition config self Hin Hdef)
    as (Htr & Hi & Ha & Hr & Hb & Hshape & Hmark).
  destruct (scan_after_reset s self h n)
    as (r & self' & Hhalt & Hdef' & _ & _ & Hh).
  { done. }
  { rewrite Hi, Ha. by vm_compute. }
  { rewrite Hi, Hr. by vm_compute. }
  { by rewrite Htr, Hi, Ha, Hr, Hb. }
  exists r, self'. split; [done|]. split; [done|].
  pose proof Hdef' as (_ & _ & _ & _ & _ & Ha' & _).
  rewrite <- Ha', Ha, elem_of_accept_qa.
  destruct h as [q|].
  - destruct Hh as (Hq & _ & _ & ->). split; [done|].
    rewrite Hq. split; [by intros ->|by intros [= ->]].
  - destruct Hh as (Hq & _ & ->). split; [done|].
    rewrite Hq, Hmark. split; intros; discriminate.
Qed.


(** X15: [test_regex_with_strings] never raises.  For a name that is not
    registered it returns the error report naming it; for a registered one
    it returns results in which [total] is the number of test cases,
    [passed] and [failed] count the details with and without [passed] and
    add up to [total], and the details list the test cases in order, each
    with [passed] saying whether [got] equals [expected]. *)
Theorem test_regex_with_strings_report regex_name test_strings :
  ∃ report,
    test_regex_with_strings regex_name test_strings = inr report ∧
    match report with
    | TestError message =>
        (regex_name ∉ get_all_machine_names) ∧
        message = "Expresión regular '" +:+ regex_name +:+ "' no encontrada"
    | TestSummary results =>
        regex_name ∈ get_all_machine_names ∧
        t_total results = py_len test_strings ∧
        t_passed results + t_failed results = t_total results ∧
        t_passed results
        = py_len (filter (λ d, d_passed d = true) (t_details results)) ∧
        t_failed results
        = py_len (filter (λ d, d_passed d = false) (t_details results)) ∧
        d_string <$> t_details results = test_strings.*1 ∧
        d_expected <$> t_details results = test_strings.*2 ∧
        Forall (λ d, d_passed d = Bool.eqb (d_got d) (d_expected d))
               (t_details results)
    end.
Proof.
  unfold test_regex_with_strings.
  destruct (get_machine_config regex_name) as [config|] eqn:Hget.
  2:{ eexists. split; [done|]. split; [|done].
      by apply get_machine_config_None. }
  assert (regex_name ∈ get_all_machine_names) as Hname.
  { destruct (decide (regex_name ∈ get_all_machine_names)); [done|].
    apply get_machine_config_None in n. congruence. }
  destruct (get_machine_config_is_Some regex_name Hname)
    as (config' & Hget' & Hin).
  assert (config' = config) as -> by congruence.
  destruct (shipped_definition config (built (machine_from_config config)))
    as (_ & _ & _ & _ & _ & Hshape & _); [done|done|].
  apply scanner_shaped_directions_valid in Hshape.
  assert (is_built (machine_from_config config) = true) as Hbuilt.
  { apply shipped_configs in Hin.
    by destruct Hin as [-> | [-> | [-> | [-> | ->]]]]. }
  rewrite (built_eq _ Hbuilt).
  destruct (test_all_returns test_strings
              (mkResults (py_len test_strings) 0 0 []) _ Hshape)
    as (results & tm' & new & -> & Htotal & Hdetails & Hs & He & Hp
        & Hpassed & Hfailed).
  simpl in Htotal, Hdetails, Hpassed, Hfailed. subst new.
  exists (TestSummary results). split; [done|].
  split_and!; try done.
  rewrite Htotal, Hpassed, Hfailed.
  assert (length (d_string <$> t_details results)
          = length test_strings.*1) as Hlen by by rewrite Hs.
  rewrite !length_fmap in Hlen. unfold py_len. rewrite <- Hlen.
  clear. induction (t_details results) as [|d ds IH]; [done|].
  rewrite !filter_cons. destruct (d_passed d); simpl in *; lia.
Qed.


End ShippedHalts.

(** ** The automaton as a decision procedure *)

Lemma scan_config_shipped config s :
  config ∈ TURING_MACHINES.*2 →
  scan_config config s
  = scan (c_transitions config) accept_qa reject_qr "q0" (chars s ++ ["_"]).
Proof.
  intros Hin. apply shipped_configs in Hin.
  by destruct Hin as [-> | [-> | [-> | [-> | ->]]]].
Qed.

Lemma scan_accepts_shipped config s h n :
  config ∈ TURING_MACHINES.*2 →
  scan_config config s = Some (h, n) →
  scan_accepts config s = true ↔ h = HaltsIn "qa".
Proof.
  intros Hin Hscan. unfold scan_accepts. rewrite Hscan.
  assert (list_to_set (c_accept_states config) = accept_qa) as ->.
  { apply shipped_configs in Hin.
    by destruct Hin as [-> | [-> | [-> | [-> | ->]]]]. }
  destruct h as [q|]; [|done].
  rewrite bool_decide_eq_true, elem_of_accept_qa.
  split; [by intros ->|by intros [= ->]].
Qed.

Section Scanned.
Context `{SetOrder}.

Lemma test_all_scanned config tests : ∀ results tm,
  config ∈ TURING_MACHINES.*2 →
  same_definition (built (machine_from_config config)) tm →
  Forall (λ test : string * bool,
            scan_within 1000 config test.1 = true) tests →
  ∃ tm',
    test_all tests results tm
    = Returned (foldl (λ res (test : string * bool),
                         recorded res test.1 test.2
                                  (scan_accepts config test.1))
                      results tests)
               tm'.
Proof.
  induction tests as [|[s expected] tests IH];
    intros results tm Hin Hdef Htests.
  { by exists tm. }
  apply Forall_cons in Htests as [Hwithin Htests].
  unfold scan_within in Hwithin. simpl in Hwithin.
  destruct (scan_config config s) as [[h n]|] eqn:Hscan; [|done].
  apply bool_decide_eq_true in Hwithin.
  pose proof (scan_accepts_shipped config s h n Hin Hscan) as Hverdict.
  rewrite scan_config_shipped in Hscan by done.
  destruct (shipped_halts config tm s h n Hin Hdef Hscan)
    as (r & tm1 & Hhalt & Hdef1 & Hstate & Hacc).
  rewrite reset_returns in Hhalt. simpl in Hhalt.
  pose proof (step_until_halt_halts n 1000 EmptyString _ r tm1 Hhalt Hwithin)
    as Hloop.
  pose proof (test_one_unfold results s expected tm _ tm1 Hloop) as Hone.
  assert (bool_decide (r_state r ∈ accept_states tm1)
          = scan_accepts config s) as Hgot.
  { destruct (scan_accepts config s).
    - apply bool_decide_eq_true. rewrite Hstate, Hacc. by apply Hverdict.
    - apply bool_decide_eq_false. rewrite Hstate, Hacc, <- Hverdict. done. }
  rewrite Hgot in Hone.
  destruct (IH (recorded results s expected (scan_accepts config s)) tm1)
    as (tm' & Hall); [done| |done|].
  { by etrans. }
  exists tm'.
  change (test_all ((s, expected) :: tests) results tm)
    with (match test_one results (s, expected) tm with
          | Returned a self' => test_all tests a self'
          | Raised e self' => Raised e self'
          end).
  rewrite Hone. exact Hall.
Qed.

Lemma test_regex_with_strings_scanned regex_name config tests :
  get_machine_config regex_name = Some config →
  Forall (λ test : string * bool,
            scan_within 1000 config test.1 = true) tests →
  test_regex_with_strings regex_name tests
  = inr (TestSummary
           (foldl (λ res (test : string * bool),
                     recorded res test.1 test.2
                              (scan_accepts config test.1))
                  (mkResults (py_len tests) 0 0 []) tests)).
Proof.
  intros Hget Htests. unfold test_regex_with_strings. rewrite Hget.
  assert (config ∈ TURING_MACHINES.*2) as Hin.
  { apply get_machine_config_Some in Hget.
    by apply (list_elem_of_fmap_2' _ _ (regex_name, config)). }
  assert (is_built (machine_from_config config) = true) as Hbuilt.
  { apply shipped_configs in Hin.
    by destruct Hin as [-> | [-> | [-> | [-> | ->]]]]. }
  rewrite (built_eq _ Hbuilt).
  destruct (test_all_scanned config tests (mkResults (py_len tests) 0 0 [])
              (built (machine_from_config config))) as (tm' & ->); done.
Qed.

End Scanned.

Section TestSuite.
Context `{SetOrder}.
(** X17: the repository's own test suite, [run_all_tests], returns
    [False]: [test_regex_1], [test_regex_3], [test_regex_4] and
    [test_regex_5] return [True], and [test_regex_2] returns [False]
    because of exactly one of its cases, [("01", False)]: the machine for
    [0*1*] accepts [01]. *)
Theorem test_suite_outcome :
  test_regex_1 = Some true ∧ test_regex_2 = Some false ∧
  test_regex_3 = Some true ∧ test_regex_4 = Some true ∧
  test_regex_5 = Some true ∧ run_all_tests = false ∧
  ∃ results,
    test_regex_with_strings "0*1*" TEST_CASES_2 = inr (TestSummary results) ∧
    filter (λ d, d_passed d = false) (t_details results)
    = [mkDetail "01" false true false].
Proof.
  assert (∀ regex_name config tests results,
            get_machine_config regex_name = Some config →
            forallb (λ test : string * bool,
                       scan_within 1000 config test.1) tests = true →
            foldl (λ res (test : string * bool),
                     recorded res test.1 test.2
                              (scan_accepts config test.1))
                  (mkResults (py_len tests) 0 0 []) tests = results →
            test_regex_with_strings regex_name tests
            = inr (TestSummary results)) as Hcompute.
  { intros regex_name config tests results Hget Hall <-.
    apply test_regex_with_strings_scanned; [done|].
    apply Forall_forall. intros test Hin.
    rewrite forallb_forall in Hall. apply Hall.
    by apply list_elem_of_In. }
  assert (test_regex_1 = Some true) as H1.
  { unfold test_regex_1, test_regex.
    erewrite (Hcompute _ REGEX_1_CONFIG) by (vm_compute; reflexivity).
    reflexivity. }
  assert (test_regex_2 = Some false) as H2.
  { unfold test_regex_2, test_regex.
    erewrite (Hcompute _ REGEX_2_CONFIG) by (vm_compute; reflexivity).
    reflexivity. }
  assert (test_regex_3 = Some true) as H3.
  { unfold test_regex_3, test_regex.
    erewrite (Hcompute _ REGEX_3_CONFIG) by (vm_compute; reflexivity).
    reflexivity. }
  assert (test_regex_4 = Some true) as H4.
  { unfold test_regex_4, test_regex.
    erewrite (Hcompute _ REGEX_4_CONFIG) by (vm_compute; reflexivity).
    reflexivity. }
  assert (test_regex_5 = Some true) as H5.
  { unfold test_regex_5, test_regex.
    erewrite (Hcompute _ REGEX_5_CONFIG) by (vm_compute; reflexivity).
    reflexivity. }
  do 5 (split; [assumption|]). split.
  - unfold run_all_tests. rewrite H1, H2, H3, H4, H5. reflexivity.
  - eexists. split.
    + apply (Hcompute _ REGEX_2_CONFIG); vm_compute; reflexivity.
    + vm_compute. reflexivity.
Qed.

End TestSuite.

(** ** The registry and the shipped configurations *)

(** X18: [get_machine_config] finds exactly the names
    [get_all_machine_names] lists, and the configuration found carries
    the name it is registered under. *)
Theorem get_machine_config_registered regex_name :
  match get_machine_config regex_name with
  | Some config =>
      regex_name ∈ get_all_machine_names ∧ c_name config = regex_name
  | None => regex_name ∉ get_all_machine_names
  end.
Proof.
  destruct (get_machine_config regex_name) as [config|] eqn:Hget.
  - apply get_machine_config_Some in Hget. split.
    + by apply (list_elem_of_fmap_2' _ _ (regex_name, config)).
    + unfold TURING_MACHINES in Hget.
      repeat (apply elem_of_cons in Hget as [Hget|Hget];
              [by simplify_eq|]).
      by apply elem_of_nil in Hget.
  - by apply get_machine_config_None.
Qed.

(** X19: every registered configuration is a well-formed machine
    definition, although the constructor checks none of this but the
    blank: the constructor accepts it; the input alphabet is part of the
    tape alphabet and has no blank; the initial, accepting and rejecting
    states are states, and no state is both accepting and rejecting;
    every entry of the table goes from a state that is neither, on a tape
    symbol, to a state, writing a tape symbol, with direction [R], [L] or
    [S]; and the table has an entry for every such state and every tape
    symbol. *)
Theorem registered_configs_well_formed regex_name config :
  get_machine_config regex_name = Some config →
  is_built (machine_from_config config) = true ∧
  c_alphabet config ⊆ c_tape_alphabet config ∧
  ("_" ∉ c_alphabet config) ∧
  c_initial_state config ∈ c_states config ∧
  c_accept_states config ⊆ c_states config ∧
  c_reject_states config ⊆ c_states config ∧
  (∀ q, q ∈ c_accept_states config → q ∉ c_reject_states config) ∧
  (∀ q sym q' w d,
     c_transitions config !! (q, sym) = Some (q', w, d) →
     q ∈ c_states config ∧ (q ∉ c_accept_states config) ∧
     (q ∉ c_reject_states config) ∧ sym ∈ c_tape_alphabet config ∧
     q' ∈ c_states config ∧ w ∈ c_tape_alphabet config ∧
     (d = "R" ∨ d = "L" ∨ d = "S")) ∧
  (∀ q sym,
     q ∈ c_states config → q ∉ c_accept_states config →
     q ∉ c_reject_states config → sym ∈ c_tape_alphabet config →
     is_Some (c_transitions config !! (q, sym))).
Proof.
  intros Hget. apply get_machine_config_Some in Hget.
  assert (config ∈ TURING_MACHINES.*2) as Hin
    by by apply (list_elem_of_fmap_2' _ _ (regex_name, config)).
  clear Hget. apply shipped_configs in Hin.
  assert (∀ (l1 l2 : list string),
            Forall (λ x, x ∈ l2) l1 → l1 ⊆ l2) as Hsub.
  { intros l1 l2 Hall x Hx. by apply (proj1 (Forall_forall _ _) Hall). }
  assert (∀ (l1 l2 : list string),
            Forall (λ x, x ∉ l2) l1 → ∀ q, q ∈ l1 → q ∉ l2) as Hdisj.
  { intros l1 l2 Hall x Hx. by apply (proj1 (Forall_forall _ _) Hall). }
  assert (∀ (tr : gmap (string * string) (string * string * string))
            (sts acc rej tal : list string),
            map_Forall
              (λ (key : string * string)
                 (entry : string * string * string),
                 key.1 ∈ sts ∧ (key.1 ∉ acc) ∧ (key.1 ∉ rej) ∧
                 key.2 ∈ tal ∧ entry.1.1 ∈ sts ∧ entry.1.2 ∈ tal ∧
                 (entry.2 = "R" ∨ entry.2 = "L" ∨ entry.2 = "S")) tr →
            ∀ q sym q' w d,
              tr !! (q, sym) = Some (q', w, d) →
              q ∈ sts ∧ (q ∉ acc) ∧ (q ∉ rej) ∧ sym ∈ tal ∧
              q' ∈ sts ∧ w ∈ tal ∧ (d = "R" ∨ d = "L" ∨ d = "S"))
    as Hclosed.
  { intros tr sts acc rej tal Hall q sym q' w d Hlook.
    exact (Hall _ _ Hlook). }
  assert (∀ (tr : gmap (string * string) (string * string * string))
            (sts acc rej tal : list string),
            Forall (λ q, q ∈ acc ∨ q ∈ rej ∨
                         Forall (λ sym, is_Some (tr !! (q, sym))) tal) sts →
            ∀ q sym, q ∈ sts → q ∉ acc → q ∉ rej → sym ∈ tal →
                     is_Some (tr !! (q, sym))) as Htotal.
  { intros tr sts acc rej tal Hall q sym Hq Ha Hr Hsym.
    destruct (proj1 (Forall_forall _ _) Hall q Hq) as [?|[?|Hrow]];
      [done..|].
    exact (proj1 (Forall_forall _ _) Hrow sym Hsym). }
  destruct Hin as [-> | [-> | [-> | [-> | ->]]]].
  all: split; [reflexivity|].
  all: split; [apply Hsub; compute_done|].
  all: split; [compute_done|].
  all: split; [compute_done|].
  all: split; [apply Hsub; compute_done|].
  all: split; [apply Hsub; compute_done|].
  all: split; [apply Hdisj; compute_done|].
  all: split; [apply Hclosed; compute_done|].
  all: apply Htotal; compute_done.
Qed.

(** ** The examples *)

Section ExamplesFacts.
Context `{SetOrder}.

Lemma run_ends_in_scanned config self s (accepted : bool) :
  config ∈ TURING_MACHINES.*2 →
  same_definition (built (machine_from_config config)) self →
  scan_within 999 config s = true →
  scan_accepts config s = accepted →
  run_ends_in (if accepted then "qa" else "qr") s self.
Proof.
  intros Hin Hdef Hwithin Haccepted. unfold scan_within in Hwithin.
  destruct (scan_config config s) as [[h n]|] eqn:Hscan; [|done].
  apply bool_decide_eq_true in Hwithin.
  pose proof (scan_accepts_shipped config s h n Hin Hscan) as Hverdict.
  rewrite scan_config_shipped in Hscan by done.
  destruct (shipped_run_within config self s 1000 h n)
    as (rs & r & self' & Hrun & _ & Hcont & Hstate & _ & Hq & Hqa);
    [done..|lia|].
  exists rs, r, self'. split; [done|]. split; [done|].
  rewrite Hstate. rewrite <- Hverdict, Haccepted in Hqa.
  destruct accepted.
  - split; by apply Hqa.
  - destruct Hq as [Hq|Hq]; [|done]. apply Hqa in Hq. discriminate.
Qed.

(** X20: the examples [get_examples_for_regex] gives for a registered
    name, run on the machine of that name: every string listed as
    accepted ends the run in the accepting state [qa]; every string
    listed as rejected ends it in the rejecting state [qr], with two
    exceptions, [01] for [0*1*] and [abababab] for [(ab)*], which are
    listed as rejected and end the run in [qa]. *)
Theorem examples_on_their_machines regex_name config self s :
  get_machine_config regex_name = Some config →
  same_definition (built (machine_from_config config)) self →
  (s ∈ e_accepted (get_examples_for_regex regex_name) →
   run_ends_in "qa" s self) ∧
  (s ∈ e_rejected (get_examples_for_regex regex_name) →
   if bool_decide ((regex_name, s) ∈ [("0*1*", "01");
                                       ("(ab)*", "abababab")])
   then run_ends_in "qa" s self
   else run_ends_in "qr" s self).
Proof.
  intros Hget Hdef. apply get_machine_config_Some in Hget.
  assert (config ∈ TURING_MACHINES.*2) as Hin
    by by apply (list_elem_of_fmap_2' _ _ (regex_name, config)).
  unfold TURING_MACHINES in Hget.
  repeat (apply elem_of_cons in Hget as [Hget|Hget];
          [injection Hget as -> ->|]);
    [..|by apply elem_of_nil in Hget].
  all: lazymatch goal with
       | |- context [ get_examples_for_regex ?name ] =>
           let v := eval vm_compute in (get_examples_for_regex name) in
           replace (get_examples_for_regex name) with v
             by (vm_compute; reflexivity)
       end.
  all: cbn [e_accepted e_rejected].
  all: split; intros Hs.
  all: repeat (apply elem_of_cons in Hs as [->|Hs]);
         [..|by apply elem_of_nil in Hs].
  all: try lazymatch goal with
       | |- context [ bool_decide ?P ] =>
           let b := eval vm_compute in (bool_decide P) in
           replace (bool_decide P) with b by (vm_compute; reflexivity)
       end.
  all: cbn iota.
  all: first
         [ apply (run_ends_in_scanned _ self _ true Hin Hdef);
           vm_compute; reflexivity
         | apply (run_ends_in_scanned _ self _ false Hin Hdef);
           vm_compute; reflexivity ].
Qed.

End ExamplesFacts.

(** ** Input that contains the blank symbol *)


Section BlankInInput.
Context `{SetOrder}.


End BlankInInput.


(** ** [format_tape_display] *)








(** ** The theorems above on concrete machines *)

Ltac characters :=
  repeat (apply Forall_cons_2;
          [first [ apply character_1 | apply character_2
                 | apply character_3 | apply character_4 ];
           unfold continuation; simpl; lia|]);
  apply Forall_nil_2.

(** An input with a character of two bytes: it takes one cell. *)
Lemma reset_then_get_status_witness :
  ∃ m self',
    regex_1_machine = inr m ∧
    reset "añb" m = Returned tt self' ∧
    tape self' = replicate 5 "_" ++ ["a"; "ñ"; "b"] ++ replicate 5 "_".
Proof.
  pose (m := built regex_1_machine).
  destruct (reset_then_get_status ["a"; "ñ"; "b"] m)
    as (self' & status & Hreset & Htape & _); [characters|].
  exists m, self'. split; [evaluate|]. split; [exact Hreset|exact Htape].
Defined.

(** A character of two bytes that is in the alphabet. *)
Lemma validate_input_string_spec_witness :
  validate_input_string "añ" ["a"; "ñ"] = (true, EmptyString).
Proof.
  destruct (validate_input_string_spec ["a"; "ñ"] ["a"; "ñ"])
    as [Hvalid _]; [characters|].
  apply Hvalid. right. intros c Hc. exact Hc.
Defined.

(** The freshly constructed machine whose only entry has direction
    [X]. *)
Lemma step_raises_only_on_bad_direction_witness :
  ∃ m e self',
    machine_with_bad_direction = inr m ∧ reachable m ∧
    step m = Raised e self' ∧
    e = ValueError "Dirección inválida: X. Debe ser 'R', 'L' o 'S'" ∧
    history self' = history m.
Proof.
  pose (m := built machine_with_bad_direction).
  pose (e := ValueError "Dirección inválida: X. Debe ser 'R', 'L' o 'S'").
  pose (self' := object_after (step m)).
  assert (Hm : machine_with_bad_direction = inr m) by evaluate.
  assert (Hreach : reachable m) by (by eapply reachable_init).
  assert (Hstep : step m = Raised e self') by evaluate.
  destruct (step_raises_only_on_bad_direction m e self' Hreach Hstep)
    as (sym & q' & w & d & _ & _ & _ & _ & _ & _ & _ & _ & _ & _ & _ & Hh).
  exists m, e, self'.
  split; [exact Hm|]. split; [exact Hreach|]. split; [exact Hstep|].
  split; [reflexivity|exact Hh].
Defined.

(** The machine for [(a|b)*abb] reading the first symbol of [abb]. *)
Lemma step_applies_transition_witness :
  ∃ m self r self',
    regex_1_machine = inr m ∧ reset "abb" m = Returned tt self ∧
    step self = Returned r self' ∧
    current_state self' = "q1" ∧ step_count self' = step_count self + 1.
Proof.
  pose (m := built regex_1_machine).
  pose (self := object_after (reset "abb" m)).
  assert (Hm : regex_1_machine = inr m) by evaluate.
  assert (Hreach : reachable self).
  { apply reachable_reset. by eapply reachable_init. }
  assert (Ha : current_state self ∉ accept_states self) by evaluate.
  assert (Hr : current_state self ∉ reject_states self) by evaluate.
  assert (Hs : symbol_under_head self = Some "a") by evaluate.
  assert (Ht : transitions self !! (current_state self, "a")
               = Some ("q1", "a", "R")) by evaluate.
  destruct (step_applies_transition self "a" "q1" "a" "R" Hreach Ha Hr Hs Ht)
    as (r & self' & Hstep & _ & Hq & Hc & _); [by left|].
  exists m, self, r, self'.
  split; [exact Hm|]. split; [evaluate|]. split; [exact Hstep|].
  split; [exact Hq|exact Hc].
Defined.

(** Two calls of [step] on [ab]. *)
Lemma history_tracks_configuration_witness :
  ∃ m,
    regex_1_machine = inr m ∧
    history_current (after_steps 2 (object_after (reset "ab" m))).
Proof.
  pose (m := built regex_1_machine).
  exists m. split; [evaluate|].
  apply (history_tracks_configuration "ab" m 2).
  intros j Hj. destruct j as [|[|j]]; [evaluate|evaluate|lia].
Defined.

(** A limit of zero steps. *)
Lemma run_without_steps_witness :
  ∃ m self',
    regex_1_machine = inr m ∧
    run "abb" false 0 m =
      Returned [snapshot false "RECHAZADA: Máximo de pasos alcanzado" self']
               self'.
Proof.
  pose (m := built regex_1_machine).
  destruct (run_without_steps "abb" false 0 m) as (self' & Hrun & _); [lia|].
  exists m, self'. split; [evaluate|exact Hrun].
Defined.

(** Step-by-step mode with the default limit. *)
Lemma run_step_by_step_witness :
  ∃ m,
    regex_1_machine = inr m ∧
    run "abb" true 1000 m =
    match step (object_after (reset "abb" m)) with
    | Returned r self' => Returned [r] self'
    | Raised e self' => Raised e self'
    end.
Proof.
  pose (m := built regex_1_machine).
  exists m. split; [evaluate|].
  apply (run_step_by_step "abb" 1000 m). lia.
Defined.

(** A freshly constructed object: the head (0) is outside the empty
    tape, and the first call extends the tape. *)
Lemma get_status_twice_witness :
  ∃ m status self',
    regex_1_machine = inr m ∧
    get_status m = Returned status self' ∧
    get_status self' = Returned status self'.
Proof.
  pose (m := built regex_1_machine).
  assert (Hm : regex_1_machine = inr m) by evaluate.
  assert (Hreach : reachable m) by (by eapply reachable_init).
  destruct (get_status_twice m Hreach) as (status & self' & H1 & H2).
  exists m, status, self'. split; [exact Hm|]. split; [exact H1|exact H2].
Defined.

(** The machine for [(a|b)*abb] on [ab]: the third call of [step]
    halts. *)
Lemma run_reports_halt_witness :
  ∃ m rs r self',
    regex_1_machine = inr m ∧
    halts_after 2 (object_after (reset "ab" m)) r self' ∧
    run "ab" false 1000 m = Returned (rs ++ [r]) self' ∧
    length rs = 2%nat ∧
    ∀ j rj, rs !! j = Some rj →
            returned (call_again j (object_after (reset "ab" m)))
            = Some rj.
Proof.
  pose (m := built regex_1_machine).
  destruct (scan_after_reset "ab" m (HaltsIn "qr") 2)
    as (r & self' & Hhalt & _).
  { unfold scanner_shaped. compute_done. }
  { compute_done. }
  { compute_done. }
  { vm_compute. reflexivity. }
  destruct (run_reports_halt "ab" 1000 m 2 r self' Hhalt)
    as (rs & Hrun & Hlen & _ & Hcalls); [lia|].
  exists m, rs, r, self'.
  split; [evaluate|]. split; [exact Hhalt|]. split; [exact Hrun|].
  split; [exact Hlen|exact Hcalls].
Defined.






Lemma registered_configs_well_formed_witness :
  get_machine_config "0*1*" = Some REGEX_2_CONFIG ∧
  c_alphabet REGEX_2_CONFIG ⊆ c_tape_alphabet REGEX_2_CONFIG.
Proof.
  assert (Hget : get_machine_config "0*1*" = Some REGEX_2_CONFIG).
  { apply get_machine_config_Some. unfold TURING_MACHINES.
    by repeat first [left; reflexivity | right]. }
  destruct (registered_configs_well_formed "0*1*" REGEX_2_CONFIG Hget)
    as (_ & Hsub & _).
  split; [exact Hget|exact Hsub].
Defined.


(** [01], listed as rejected for [0*1*]. *)
Lemma examples_on_their_machines_witness :
  get_machine_config "0*1*" = Some REGEX_2_CONFIG ∧
  "01" ∈ e_rejected (get_examples_for_regex "0*1*") ∧
  run_ends_in "qa" "01" (built (machine_from_config REGEX_2_CONFIG)).
Proof.
  assert (Hget : get_machine_config "0*1*" = Some REGEX_2_CONFIG).
  { apply get_machine_config_Some. unfold TURING_MACHINES.
    by repeat first [left; reflexivity | right]. }
  assert (Hin : "01" ∈ e_rejected (get_examples_for_regex "0*1*"))
    by compute_done.
  destruct (examples_on_their_machines "0*1*" REGEX_2_CONFIG
              (built (machine_from_config REGEX_2_CONFIG)) "01" Hget)
    as [_ Hrej]; [reflexivity|].
  split; [exact Hget|]. split; [exact Hin|]. exact (Hrej Hin).
Defined.
